(** * Canvas particle background: a shallow embedding of the particles script

    The script is one closure: a configuration object, a handful of
    closure variables ([particles], [animationFrame], [isVisible],
    [lastFrameTime], the captured [motionScale]) and the functions that
    read and write them.  JavaScript numbers are read by their use:
    counters, handles and particle counts are integers ([Z]); positions,
    speeds, times, distances and opacities are exact reals ([R]), so that
    [Math.sqrt], [Math.cos], [Math.min] and [Math.floor] have their
    mathematical meaning and no rounding is modelled.

    The motion preference script, whose [getMotionScale()] the particle
    script reads, follows in a module of its own ([Motion]). *)

From Stdlib Require Import String Ascii.
From Stdlib Require Import Reals Lra Lia ZArith List Bool.
Import ListNotations.

Open Scope R_scope.

(** ** Number tests

    [a < b] and [a > b] on JS numbers, as booleans. *)

Definition ltR (a b : R) : bool := if Rlt_dec a b then true else false.
Definition gtR (a b : R) : bool := ltR b a.

(** [Math.floor] *)
Definition Math_floor (v : R) : Z := Int_part v.

(** [Math.min] on two reals and on two integers *)
Definition Math_min (a b : R) : R := Rmin a b.
Definition Math_minZ (a b : Z) : Z := Z.min a b.

(** ** Configuration ([const CONFIG = { ... }]) *)

Module Color.
Record t := mk { r : Z; g : Z; b : Z; a : R }.
End Color.

Record Config := {
  particleCount : Z;
  maxParticleSize : R;
  minParticleSize : R;
  maxSpeed : R;
  minSpeed : R;
  connectionDistance : R;
  maxConnections : Z;
  particleColor : Color.t;
  lineColor : Color.t;
  fps : R;
  pauseWhenHidden : bool
}.

Definition default_CONFIG : Config := {|
  particleCount := 50;
  maxParticleSize := 3;
  minParticleSize := 1;
  maxSpeed := 0.5;
  minSpeed := 0.1;
  connectionDistance := 120;
  maxConnections := 3;
  particleColor := Color.mk 22 163 74 0.6;
  lineColor := Color.mk 22 163 74 0.2;
  fps := 60;
  pauseWhenHidden := true
|}.

(** ** What is drawn on the 2d context

    A style string [rgba(r, g, b, alpha)] is kept as its four components. *)

Record rgba := { red : Z; green : Z; blue : Z; alpha : R }.

Inductive DrawOp :=
| ClearRect (x0 y0 w h : R)
| FillArc (fillStyle : rgba) (cx cy radius : R)
| StrokeLine (strokeStyle : rgba) (lineWidth : R) (x1 y1 x2 y2 : R).

(** ** [class Particle] *)

Module Particle.

Record t := mk {
  canvasWidth : R;
  canvasHeight : R;
  x : R;
  y : R;
  size : R;
  speedX : R;
  speedY : R;
  opacity : R;
  connections : Z
}.

(** [reset()]: six calls of [Math.random()], in source order; [rnd k]
    is the value the k-th of them returns (counting from 0). *)
Definition reset (cfg : Config) (rnd : nat -> R) (p : t) : t :=
  let x' := rnd 0%nat * canvasWidth p in
  let y' := rnd 1%nat * canvasHeight p in
  let size' :=
    rnd 2%nat * (maxParticleSize cfg - minParticleSize cfg)
    + minParticleSize cfg in
  let speed := rnd 3%nat * (maxSpeed cfg - minSpeed cfg) + minSpeed cfg in
  let angle := rnd 4%nat * PI * 2 in
  {| canvasWidth := canvasWidth p;
     canvasHeight := canvasHeight p;
     x := x';
     y := y';
     size := size';
     speedX := cos angle * speed;
     speedY := sin angle * speed;
     opacity := rnd 5%nat * 0.4 + 0.3;
     connections := 0 |}.

(** [constructor(canvasWidth, canvasHeight)] *)
Definition new (cfg : Config) (rnd : nat -> R) (w h : R) : t :=
  reset cfg rnd (mk w h 0 0 0 0 0 0 0).

(** [update(deltaTime)]; [motionScale] is the closure constant the
    method reads. *)
Definition update (motionScale deltaTime : R) (p : t) : t :=
  (* Update position *)
  let x1 := x p + speedX p * motionScale * deltaTime in
  let y1 := y p + speedY p * motionScale * deltaTime in
  (* Wrap around edges *)
  let x2 := if gtR x1 (canvasWidth p) then 0 else x1 in
  let x3 := if ltR x2 0 then canvasWidth p else x2 in
  let y2 := if gtR y1 (canvasHeight p) then 0 else y1 in
  let y3 := if ltR y2 0 then canvasHeight p else y2 in
  (* Reset connections counter *)
  {| canvasWidth := canvasWidth p;
     canvasHeight := canvasHeight p;
     x := x3;
     y := y3;
     size := size p;
     speedX := speedX p;
     speedY := speedY p;
     opacity := opacity p;
     connections := 0 |}.

(** [draw()] *)
Definition draw (cfg : Config) (p : t) : DrawOp :=
  let color := particleColor cfg in
  FillArc {| red := Color.r color; green := Color.g color;
             blue := Color.b color; alpha := opacity p |}
          (x p) (y p) (size p).

End Particle.

(** ** The page the script runs in

    What the script reads from the browser and what it asks of it: the
    container's box, the clock, the random source, the motion-preference
    utility ([window.motionUtils], whose [getMotionScale()] currently
    returns the stored value), and the frame scheduler, of which only this
    script's callbacks are tracked. *)

Record Platform := {
  container : option (R * R);
  devicePixelRatio : R;
  Date_now : R;
  Math_random : nat -> R;
  motionUtils : option R;
  document_hidden : bool;
  raf_next : Z;
  raf_pending : list Z
}.

(** ** The closure's variables *)

Record State := {
  CONFIG : Config;
  motionScale : R;
  canvas_width : R;
  canvas_height : R;
  canvas_parentNode : bool;
  ctx_log : list DrawOp;
  particles : list Particle.t;
  animationFrame : option Z;
  isVisible : bool;
  lastFrameTime : R;
  checkMotion : bool;
  platform : Platform
}.

Definition set_platform (pf : Platform) (s : State) : State :=
  {| CONFIG := CONFIG s; motionScale := motionScale s;
     canvas_width := canvas_width s; canvas_height := canvas_height s;
     canvas_parentNode := canvas_parentNode s; ctx_log := ctx_log s;
     particles := particles s; animationFrame := animationFrame s;
     isVisible := isVisible s; lastFrameTime := lastFrameTime s;
     checkMotion := checkMotion s; platform := pf |}.

Definition set_CONFIG (c : Config) (s : State) : State :=
  {| CONFIG := c; motionScale := motionScale s;
     canvas_width := canvas_width s; canvas_height := canvas_height s;
     canvas_parentNode := canvas_parentNode s; ctx_log := ctx_log s;
     particles := particles s; animationFrame := animationFrame s;
     isVisible := isVisible s; lastFrameTime := lastFrameTime s;
     checkMotion := checkMotion s; platform := platform s |}.

Definition set_canvas_size (w h : R) (s : State) : State :=
  {| CONFIG := CONFIG s; motionScale := motionScale s;
     canvas_width := w; canvas_height := h;
     canvas_parentNode := canvas_parentNode s; ctx_log := ctx_log s;
     particles := particles s; animationFrame := animationFrame s;
     isVisible := isVisible s; lastFrameTime := lastFrameTime s;
     checkMotion := checkMotion s; platform := platform s |}.

Definition set_canvas_parentNode (b : bool) (s : State) : State :=
  {| CONFIG := CONFIG s; motionScale := motionScale s;
     canvas_width := canvas_width s; canvas_height := canvas_height s;
     canvas_parentNode := b; ctx_log := ctx_log s;
     particles := particles s; animationFrame := animationFrame s;
     isVisible := isVisible s; lastFrameTime := lastFrameTime s;
     checkMotion := checkMotion s; platform := platform s |}.

Definition set_ctx_log (l : list DrawOp) (s : State) : State :=
  {| CONFIG := CONFIG s; motionScale := motionScale s;
     canvas_width := canvas_width s; canvas_height := canvas_height s;
     canvas_parentNode := canvas_parentNode s; ctx_log := l;
     particles := particles s; animationFrame := animationFrame s;
     isVisible := isVisible s; lastFrameTime := lastFrameTime s;
     checkMotion := checkMotion s; platform := platform s |}.

Definition set_particles (ps : list Particle.t) (s : State) : State :=
  {| CONFIG := CONFIG s; motionScale := motionScale s;
     canvas_width := canvas_width s; canvas_height := canvas_height s;
     canvas_parentNode := canvas_parentNode s; ctx_log := ctx_log s;
     particles := ps; animationFrame := animationFrame s;
     isVisible := isVisible s; lastFrameTime := lastFrameTime s;
     checkMotion := checkMotion s; platform := platform s |}.

Definition set_animationFrame (f : option Z) (s : State) : State :=
  {| CONFIG := CONFIG s; motionScale := motionScale s;
     canvas_width := canvas_width s; canvas_height := canvas_height s;
     canvas_parentNode := canvas_parentNode s; ctx_log := ctx_log s;
     particles := particles s; animationFrame := f;
     isVisible := isVisible s; lastFrameTime := lastFrameTime s;
     checkMotion := checkMotion s; platform := platform s |}.

Definition set_isVisible (b : bool) (s : State) : State :=
  {| CONFIG := CONFIG s; motionScale := motionScale s;
     canvas_width := canvas_width s; canvas_height := canvas_height s;
     canvas_parentNode := canvas_parentNode s; ctx_log := ctx_log s;
     particles := particles s; animationFrame := animationFrame s;
     isVisible := b; lastFrameTime := lastFrameTime s;
     checkMotion := checkMotion s; platform := platform s |}.

Definition set_lastFrameTime (t : R) (s : State) : State :=
  {| CONFIG := CONFIG s; motionScale := motionScale s;
     canvas_width := canvas_width s; canvas_height := canvas_height s;
     canvas_parentNode := canvas_parentNode s; ctx_log := ctx_log s;
     particles := particles s; animationFrame := animationFrame s;
     isVisible := isVisible s; lastFrameTime := t;
     checkMotion := checkMotion s; platform := platform s |}.

Definition set_checkMotion (b : bool) (s : State) : State :=
  {| CONFIG := CONFIG s; motionScale := motionScale s;
     canvas_width := canvas_width s; canvas_height := canvas_height s;
     canvas_parentNode := canvas_parentNode s; ctx_log := ctx_log s;
     particles := particles s; animationFrame := animationFrame s;
     isVisible := isVisible s; lastFrameTime := lastFrameTime s;
     checkMotion := b; platform := platform s |}.

(** ** Platform calls *)

(** [requestAnimationFrame(animate)]: a fresh handle, now pending. *)
Definition requestAnimationFrame (pf : Platform) : Z * Platform :=
  (raf_next pf,
   {| container := container pf; devicePixelRatio := devicePixelRatio pf;
      Date_now := Date_now pf; Math_random := Math_random pf;
      motionUtils := motionUtils pf; document_hidden := document_hidden pf;
      raf_next := (raf_next pf + 1)%Z;
      raf_pending := raf_pending pf ++ [raf_next pf] |}).

(** [cancelAnimationFrame(handle)] *)
Definition cancelAnimationFrame (h : Z) (pf : Platform) : Platform :=
  {| container := container pf; devicePixelRatio := devicePixelRatio pf;
     Date_now := Date_now pf; Math_random := Math_random pf;
     motionUtils := motionUtils pf; document_hidden := document_hidden pf;
     raf_next := raf_next pf;
     raf_pending := filter (fun k => negb (k =? h)%Z) (raf_pending pf) |}.

Definition set_raf_pending (l : list Z) (pf : Platform) : Platform :=
  {| container := container pf; devicePixelRatio := devicePixelRatio pf;
     Date_now := Date_now pf; Math_random := Math_random pf;
     motionUtils := motionUtils pf; document_hidden := document_hidden pf;
     raf_next := raf_next pf; raf_pending := l |}.

Definition set_Math_random (rnd : nat -> R) (pf : Platform) : Platform :=
  {| container := container pf; devicePixelRatio := devicePixelRatio pf;
     Date_now := Date_now pf; Math_random := rnd;
     motionUtils := motionUtils pf; document_hidden := document_hidden pf;
     raf_next := raf_next pf; raf_pending := raf_pending pf |}.

Definition set_Date_now (t : R) (pf : Platform) : Platform :=
  {| container := container pf; devicePixelRatio := devicePixelRatio pf;
     Date_now := t; Math_random := Math_random pf;
     motionUtils := motionUtils pf; document_hidden := document_hidden pf;
     raf_next := raf_next pf; raf_pending := raf_pending pf |}.

Definition set_container (c : option (R * R)) (pf : Platform) : Platform :=
  {| container := c; devicePixelRatio := devicePixelRatio pf;
     Date_now := Date_now pf; Math_random := Math_random pf;
     motionUtils := motionUtils pf; document_hidden := document_hidden pf;
     raf_next := raf_next pf; raf_pending := raf_pending pf |}.

Definition set_motionUtils (m : option R) (pf : Platform) : Platform :=
  {| container := container pf; devicePixelRatio := devicePixelRatio pf;
     Date_now := Date_now pf; Math_random := Math_random pf;
     motionUtils := m; document_hidden := document_hidden pf;
     raf_next := raf_next pf; raf_pending := raf_pending pf |}.

Definition set_document_hidden (b : bool) (pf : Platform) : Platform :=
  {| container := container pf; devicePixelRatio := devicePixelRatio pf;
     Date_now := Date_now pf; Math_random := Math_random pf;
     motionUtils := motionUtils pf; document_hidden := b;
     raf_next := raf_next pf; raf_pending := raf_pending pf |}.

(** [window.motionUtils ? window.motionUtils.getMotionScale() : 1] *)
Definition getMotionScale_or_1 (pf : Platform) : R :=
  match motionUtils pf with Some v => v | None => 1 end.

(** Truthiness of [animationFrame]: [null] and the number 0 are falsy. *)
Definition truthy (f : option Z) : bool :=
  match f with
  | Some h => negb (h =? 0)%Z
  | None => false
  end.

(** ** Counted loops

    [for (let i = lo; i < hi; i++) body(i)], for a body that assigns
    neither [i] nor the bound. *)

Fixpoint for_steps {S : Type} (k : nat) (i : nat)
  (body : nat -> S -> S) (s : S) : S :=
  match k with
  | O => s
  | Datatypes.S k' => for_steps k' (i + 1) body (body i s)
  end.

Definition for_loop {S : Type} (lo hi : nat) (body : nat -> S -> S) (s : S) : S :=
  for_steps (hi - lo) lo body s.

(** [l[k] = f(l[k])] on the particle array *)
Fixpoint modify_nth {A : Type} (k : nat) (f : A -> A) (l : list A) : list A :=
  match l, k with
  | [], _ => []
  | a :: l', O => f a :: l'
  | a :: l', Datatypes.S k' => a :: modify_nth k' f l'
  end.

(** ** [resizeCanvas()]

    The canvas takes the container's box scaled by the device pixel ratio
    ([window.devicePixelRatio || 1]); the box itself is returned.  The CSS
    size of the canvas and the scale of the context, which nothing below
    reads, are left out. *)

Definition container_rect (pf : Platform) : R * R :=
  match container pf with
  | Some rect => rect
  | None => (0, 0)
  end.

Definition resizeCanvas (s : State) : (R * R) * State :=
  let rect := container_rect (platform s) in
  let dpr :=
    if Req_dec_T (devicePixelRatio (platform s)) 0 then 1
    else devicePixelRatio (platform s) in
  (rect, set_canvas_size (fst rect * dpr) (snd rect * dpr) s).

(** ** [init()] *)

(** One pass of the loop body: [particles.push(new Particle(w, h))], on the
    pair of the array and the random values still to come.  The loop
    [for (let i = 0; i < particleCount; i++)] runs [particleCount] times
    and not at all when that number is negative: [Z.to_nat particleCount]
    passes. *)
Definition init_push (cfg : Config) (w h : R) (_ : nat)
  (st : list Particle.t * (nat -> R)) : list Particle.t * (nat -> R) :=
  let '(ps, rnd) := st in
  (ps ++ [Particle.new cfg rnd w h], fun k => rnd (k + 6)%nat).

Definition init (s : State) : State :=
  let '(dimensions, s1) := resizeCanvas s in
  let s2 := set_particles [] s1 in
  (* Scale particle count with screen size (but cap at max) *)
  let particleCount' :=
    Math_minZ (Math_floor (fst dimensions * snd dimensions / 15000))
              (particleCount (CONFIG s2)) in
  let '(ps, rnd) :=
    for_loop 0 (Z.to_nat particleCount')
      (init_push (CONFIG s2) (fst dimensions) (snd dimensions))
      (particles s2, Math_random (platform s2)) in
  set_platform (set_Math_random rnd (platform s2)) (set_particles ps s2).

(** ** [getDistance(x1, y1, x2, y2)] *)

Definition getDistance (x1 y1 x2 y2 : R) : R :=
  let dx := x2 - x1 in
  let dy := y2 - y1 in
  sqrt (dx * dx + dy * dy).

(** ** [drawConnections()]

    The two nested loops run on the pair of the particle array and the
    drawing log.  [p1] and [p2] are references into the array, so the
    increments are made on the array cells. *)

Definition incr_connections (p : Particle.t) : Particle.t :=
  {| Particle.canvasWidth := Particle.canvasWidth p;
     Particle.canvasHeight := Particle.canvasHeight p;
     Particle.x := Particle.x p;
     Particle.y := Particle.y p;
     Particle.size := Particle.size p;
     Particle.speedX := Particle.speedX p;
     Particle.speedY := Particle.speedY p;
     Particle.opacity := Particle.opacity p;
     Particle.connections := (Particle.connections p + 1)%Z |}.

Definition drawConnections_inner (cfg : Config) (i j : nat)
  (st : list Particle.t * list DrawOp) : list Particle.t * list DrawOp :=
  let color := lineColor cfg in
  let maxDistance := connectionDistance cfg in
  match nth_error (fst st) i, nth_error (fst st) j with
  | Some p1, Some p2 =>
      if (Particle.connections p2 >=? maxConnections cfg)%Z then st
      else
        let distance :=
          getDistance (Particle.x p1) (Particle.y p1)
                      (Particle.x p2) (Particle.y p2) in
        if ltR distance maxDistance then
          let opacity := Color.a color * (1 - distance / maxDistance) in
          (modify_nth j incr_connections
             (modify_nth i incr_connections (fst st)),
           snd st ++
             [StrokeLine {| red := Color.r color; green := Color.g color;
                            blue := Color.b color; alpha := opacity |}
                         1
                         (Particle.x p1) (Particle.y p1)
                         (Particle.x p2) (Particle.y p2)])
        else st
  | _, _ => st
  end.

Definition drawConnections_outer (cfg : Config) (i : nat)
  (st : list Particle.t * list DrawOp) : list Particle.t * list DrawOp :=
  match nth_error (fst st) i with
  | Some p1 =>
      (* Limit connections per particle for performance *)
      if (Particle.connections p1 >=? maxConnections cfg)%Z then st
      else for_loop (i + 1) (length (fst st)) (drawConnections_inner cfg i) st
  | None => st
  end.

Definition drawConnections_pass (cfg : Config)
  (st : list Particle.t * list DrawOp) : list Particle.t * list DrawOp :=
  for_loop 0 (length (fst st)) (drawConnections_outer cfg) st.

Definition drawConnections (s : State) : State :=
  let st := drawConnections_pass (CONFIG s) (particles s, ctx_log s) in
  set_ctx_log (snd st) (set_particles (fst st) s).

(** ** [animate(currentTime)] *)

(** [Math.min((currentTime - lastFrameTime) / 16.67, 2)] *)
Definition deltaTime_of (currentTime lastFrameTime' : R) : R :=
  Math_min ((currentTime - lastFrameTime') / 16.67) 2.

Definition animate (currentTime : R) (s : State) : State :=
  if negb (isVisible s) then s
  else
    (* Calculate delta time for frame-independent animation *)
    let deltaTime := deltaTime_of currentTime (lastFrameTime s) in
    let s1 := set_lastFrameTime currentTime s in
    (* Clear canvas *)
    let s2 :=
      set_ctx_log
        (ctx_log s1 ++ [ClearRect 0 0 (canvas_width s1) (canvas_height s1)])
        s1 in
    (* Update and draw particles *)
    let ps := map (Particle.update (motionScale s2) deltaTime) (particles s2) in
    let s3 :=
      set_ctx_log (ctx_log s2 ++ map (Particle.draw (CONFIG s2)) ps)
                  (set_particles ps s2) in
    (* Draw connections *)
    let s4 := drawConnections s3 in
    (* Continue animation *)
    let '(h, pf) := requestAnimationFrame (platform s4) in
    set_animationFrame (Some h) (set_platform pf s4).

(** ** [start()], [stop()], [destroy()] *)

Definition start (s : State) : State :=
  if truthy (animationFrame s) then s
  else
    let s1 := set_isVisible true s in
    let s2 := set_lastFrameTime (Date_now (platform s1)) s1 in
    let '(h, pf) := requestAnimationFrame (platform s2) in
    set_animationFrame (Some h) (set_platform pf s2).

Definition stop (s : State) : State :=
  let s1 :=
    match animationFrame s with
    | Some h =>
        if truthy (animationFrame s) then
          set_animationFrame None
            (set_platform (cancelAnimationFrame h (platform s)) s)
        else s
    | None => s
    end in
  set_isVisible false s1.

Definition destroy (s : State) : State :=
  let s1 := stop s in
  let s2 :=
    if canvas_parentNode s1 then set_canvas_parentNode false s1 else s1 in
  set_particles [] s2.

(** ** The exposed API ([window.particlesAPI]) *)

Definition reinit (s : State) : State := start (init (stop s)).

Definition getParticleCount (s : State) : nat := length (particles s).

(** The argument of [setConfig]: the fields present in [newConfig]. *)
Record PartialConfig := {
  new_particleCount : option Z;
  new_maxParticleSize : option R;
  new_minParticleSize : option R;
  new_maxSpeed : option R;
  new_minSpeed : option R;
  new_connectionDistance : option R;
  new_maxConnections : option Z;
  new_particleColor : option Color.t;
  new_lineColor : option Color.t;
  new_fps : option R;
  new_pauseWhenHidden : option bool
}.

Definition or_else {A : Type} (o : option A) (d : A) : A :=
  match o with Some v => v | None => d end.

(** [Object.assign(CONFIG, newConfig)] *)
Definition Object_assign (c : Config) (n : PartialConfig) : Config :=
  {| particleCount := or_else (new_particleCount n) (particleCount c);
     maxParticleSize := or_else (new_maxParticleSize n) (maxParticleSize c);
     minParticleSize := or_else (new_minParticleSize n) (minParticleSize c);
     maxSpeed := or_else (new_maxSpeed n) (maxSpeed c);
     minSpeed := or_else (new_minSpeed n) (minSpeed c);
     connectionDistance :=
       or_else (new_connectionDistance n) (connectionDistance c);
     maxConnections := or_else (new_maxConnections n) (maxConnections c);
     particleColor := or_else (new_particleColor n) (particleColor c);
     lineColor := or_else (new_lineColor n) (lineColor c);
     fps := or_else (new_fps n) (fps c);
     pauseWhenHidden := or_else (new_pauseWhenHidden n) (pauseWhenHidden c) |}.

Definition setConfig (newConfig : PartialConfig) (s : State) : State :=
  reinit (set_CONFIG (Object_assign (CONFIG s) newConfig) s).

(** ** The script body

    Run once when the page loads.  [None]: the script returned early
    (no container, or motion switched off) and exposes nothing. *)

Definition load (pf : Platform) : option State :=
  match container pf with
  | None => None
  | Some _ =>
      (* Check if motion is enabled *)
      let motionScale' := getMotionScale_or_1 pf in
      if Req_dec_T motionScale' 0 then None
      else
        let s0 :=
          {| CONFIG := default_CONFIG;
             motionScale := motionScale';
             canvas_width := 300;
             canvas_height := 150;
             canvas_parentNode := true;
             ctx_log := [];
             particles := [];
             animationFrame := None;
             isVisible := true;
             lastFrameTime := Date_now pf;
             checkMotion :=
               match motionUtils pf with Some _ => true | None => false end;
             platform := pf |} in
        Some (start (init s0))
  end.

(** ** Callbacks and what the page does between them *)

Inductive Event :=
| Frame (currentTime : R)
| ResizeTimeout
| VisibilityChange (hidden : bool)
| MotionPoll
| BeforeUnload
| ApiStart
| ApiStop
| ApiDestroy
| ApiReinit
| ApiSetConfig (newConfig : PartialConfig)
| ClockAdvance (t : R)
| ContainerResized (w h : R)
| MotionScaleChanged (v : R).

(** The platform runs the oldest pending frame callback of the script. *)
Definition deliver_frame (currentTime : R) (s : State) : State :=
  match raf_pending (platform s) with
  | [] => s
  | _ :: rest =>
      animate currentTime
        (set_platform (set_raf_pending rest (platform s)) s)
  end.

(** The [setInterval] callback that watches the motion preference. *)
Definition motion_poll (s : State) : State :=
  if checkMotion s then
    let currentMotionScale := getMotionScale_or_1 (platform s) in
    if Req_dec_T currentMotionScale 0 then
      if isVisible s then set_checkMotion false (destroy s) else s
    else s
  else s.

(** The [visibilitychange] listener *)
Definition on_visibilitychange (hidden : bool) (s : State) : State :=
  let s1 := set_platform (set_document_hidden hidden (platform s)) s in
  if document_hidden (platform s1) then stop s1 else start s1.

Definition step (e : Event) (s : State) : State :=
  match e with
  | Frame t => deliver_frame t s
  | ResizeTimeout => start (init (stop s))
  | VisibilityChange hidden => on_visibilitychange hidden s
  | MotionPoll => motion_poll s
  | BeforeUnload => destroy s
  | ApiStart => start s
  | ApiStop => stop s
  | ApiDestroy => destroy s
  | ApiReinit => reinit s
  | ApiSetConfig n => setConfig n s
  | ClockAdvance t => set_platform (set_Date_now t (platform s)) s
  | ContainerResized w h =>
      set_platform (set_container (Some (w, h)) (platform s)) s
  | MotionScaleChanged v =>
      match motionUtils (platform s) with
      | Some _ => set_platform (set_motionUtils (Some v) (platform s)) s
      | None => s
      end
  end.

Definition run (evs : list Event) (s : State) : State :=
  fold_left (fun acc e => step e acc) evs s.

(** States the running script can be in: loaded on some page whose frame
    scheduler hands out positive handles, then driven by any events. *)
Definition reachable (s : State) : Prop :=
  exists pf s0 evs,
    (0 < raf_next pf)%Z /\ raf_pending pf = [] /\
    load pf = Some s0 /\ s = run evs s0.

(** ** Auxiliary notions for the statements *)

(** A particle with its per-frame counter put back to 0: two particles
    with the same image differ by their [connections] only. *)
Definition forget_connections (p : Particle.t) : Particle.t :=
  {| Particle.canvasWidth := Particle.canvasWidth p;
     Particle.canvasHeight := Particle.canvasHeight p;
     Particle.x := Particle.x p;
     Particle.y := Particle.y p;
     Particle.size := Particle.size p;
     Particle.speedX := Particle.speedX p;
     Particle.speedY := Particle.speedY p;
     Particle.opacity := Particle.opacity p;
     Particle.connections := 0 |}.

(** The scheduling discipline of [start]/[stop]/[animate]: the handle kept
    in [animationFrame] is the one pending callback, and the loop is
    marked visible exactly when one is pending. *)
Definition lifecycle_inv (s : State) : Prop :=
  (0 < raf_next (platform s))%Z /\
  match animationFrame s with
  | Some h =>
      (0 < h < raf_next (platform s))%Z
      /\ isVisible s = true
      /\ raf_pending (platform s) = [h]
  | None => isVisible s = false /\ raf_pending (platform s) = []
  end.

(** A particle inside its canvas rectangle, edges included. *)
Definition in_canvas (p : Particle.t) : Prop :=
  0 <= Particle.x p <= Particle.canvasWidth p
  /\ 0 <= Particle.y p <= Particle.canvasHeight p.

(** What the browser guarantees of a page: [Math.random()] returns values
    of [0, 1) and a box has non-negative sides. *)
Definition page_ok (pf : Platform) : Prop :=
  (forall k, 0 <= Math_random pf k < 1)
  /\ 0 <= fst (container_rect pf) /\ 0 <= snd (container_rect pf).

Definition event_ok (e : Event) : Prop :=
  match e with
  | ContainerResized w h => 0 <= w /\ 0 <= h
  | _ => True
  end.

(** The test of the inner loop: [q] is closer to [p] than
    [connectionDistance]. *)
Definition within_reach (cfg : Config) (p q : Particle.t) : bool :=
  ltR (getDistance (Particle.x p) (Particle.y p) (Particle.x q) (Particle.y q))
      (connectionDistance cfg).

(** ** Sample inputs *)

(** A particle on an 800 x 600 canvas, moving right at speed 0.3. *)
Definition dot (x0 y0 : R) (c : Z) : Particle.t :=
  Particle.mk 800 600 x0 y0 2 0.3 0 0.5 c.

(** A page whose container is [w] x [h], with motion switched on, and on
    which [Math.random()] keeps returning [rnd]. *)
Definition page (w h rnd : R) : Platform :=
  {| container := Some (w, h);
     devicePixelRatio := 1;
     Date_now := 0;
     Math_random := fun _ => rnd;
     motionUtils := Some 1;
     document_hidden := false;
     raf_next := 1;
     raf_pending := [] |}.

(** The closure in the middle of a run: loop started (handle 1 pending),
    configuration [cfg], particles [ps], last frame at time 0. *)
Definition running (cfg : Config) (ps : list Particle.t) : State :=
  {| CONFIG := cfg;
     motionScale := 1;
     canvas_width := 800;
     canvas_height := 600;
     canvas_parentNode := true;
     ctx_log := [];
     particles := ps;
     animationFrame := Some 1%Z;
     isVisible := true;
     lastFrameTime := 0;
     checkMotion := true;
     platform :=
       {| container := Some (800, 600);
          devicePixelRatio := 1;
          Date_now := 0;
          Math_random := fun _ => 0.5;
          motionUtils := Some 1;
          document_hidden := false;
          raf_next := 2;
          raf_pending := [1%Z] |} |}.

(** [newConfig = { maxConnections: m }] *)
Definition only_maxConnections (m : Z) : PartialConfig :=
  {| new_particleCount := None;
     new_maxParticleSize := None;
     new_minParticleSize := None;
     new_maxSpeed := None;
     new_minSpeed := None;
     new_connectionDistance := None;
     new_maxConnections := Some m;
     new_particleColor := None;
     new_lineColor := None;
     new_fps := None;
     new_pauseWhenHidden := None |}.

(** The stroke style of an edge of opacity [o] under configuration [cfg] *)
Definition line_style (cfg : Config) (o : R) : rgba :=
  {| red := Color.r (lineColor cfg);
     green := Color.g (lineColor cfg);
     blue := Color.b (lineColor cfg);
     alpha := o |}.

(** The closure right after the script ran on [page 150 100 0.5]: one
    particle, loop started. *)
Definition small_field : State :=
  {| CONFIG := default_CONFIG;
     motionScale := 1;
     canvas_width := 150 * 1;
     canvas_height := 100 * 1;
     canvas_parentNode := true;
     ctx_log := [];
     particles := [Particle.new default_CONFIG (fun _ => 0.5) 150 100];
     animationFrame := Some 1%Z;
     isVisible := true;
     lastFrameTime := 0;
     checkMotion := true;
     platform :=
       {| container := Some (150, 100);
          devicePixelRatio := 1;
          Date_now := 0;
          Math_random := fun _ => 0.5;
          motionUtils := Some 1;
          document_hidden := false;
          raf_next := 2;
          raf_pending := [1%Z] |} |}.

(** ** Further notions for the statements *)

(** The bound the pass does keep on the counter of the particle at index
    [k] among [n]: the cap, plus the later particles but one, which the
    particle can still reach as the outer particle of its own iteration. *)
Definition degree_bound (cfg : Config) (n k : nat) : Z :=
  Z.max (maxConnections cfg)
        (maxConnections cfg + Z.of_nat n - 2 - Z.of_nat k).

(** The sum of the counters. *)
Definition total_connections (ps : list Particle.t) : Z :=
  fold_right Z.add 0%Z (map Particle.connections ps).

(** Loop invariants of the pass for that bound, before the outer
    iteration [i] and before the inner iteration [j] of the outer
    iteration [i]. *)
Definition outer_inv (cfg : Config) (n i : nat)
  (st : list Particle.t * list DrawOp) : Prop :=
  length (fst st) = n
  /\ forall k p, nth_error (fst st) k = Some p ->
       (Particle.connections p
        <= if (k <? i)%nat then degree_bound cfg n k else maxConnections cfg)%Z.

Definition inner_inv (cfg : Config) (n i j : nat)
  (st : list Particle.t * list DrawOp) : Prop :=
  length (fst st) = n
  /\ forall k p, nth_error (fst st) k = Some p ->
       (Particle.connections p
        <= if (k <? i)%nat then degree_bound cfg n k
           else if (k =? i)%nat
                then maxConnections cfg + Z.of_nat j - Z.of_nat i - 2
                else maxConnections cfg)%Z.


(** Drawing operations that are edges, and their number in a log. *)
Definition is_line (op : DrawOp) : bool :=
  match op with
  | StrokeLine _ _ _ _ _ _ => true
  | _ => false
  end.

Definition count_lines (log : list DrawOp) : nat :=
  length (filter is_line log).

(** [op] is the edge the pass draws for two particles of [ps], the first
    before the second in the array, the second within reach of the first. *)
Definition edge_of (cfg : Config) (ps : list Particle.t) (op : DrawOp) : Prop :=
  match op with
  | StrokeLine style lw x1 y1 x2 y2 =>
      lw = 1
      /\ exists (i j : nat) (p q : Particle.t),
           (i < j)%nat
           /\ nth_error ps i = Some p /\ nth_error ps j = Some q
           /\ x1 = Particle.x p /\ y1 = Particle.y p
           /\ x2 = Particle.x q /\ y2 = Particle.y q
           /\ within_reach cfg p q = true
           /\ style
              = line_style cfg
                  (Color.a (lineColor cfg)
                   * (1 - getDistance x1 y1 x2 y2 / connectionDistance cfg))
  | _ => False
  end.

(** The stroke alpha of [op] is the configured line alpha scaled by a
    factor of (0, 1]. *)
Definition line_alpha_ok (cfg : Config) (op : DrawOp) : Prop :=
  match op with
  | StrokeLine style _ _ _ _ _ =>
      exists f, 0 < f <= 1 /\ alpha style = Color.a (lineColor cfg) * f
  | _ => False
  end.

(** What the pass keeps while it runs on the array [ps0] and the log
    [log0]: particles differ from those of [ps0] by their counters only,
    the log has grown by edges of [ps0], two counter increments each. *)
Definition pass_inv (cfg : Config) (ps0 : list Particle.t)
  (log0 : list DrawOp) (st : list Particle.t * list DrawOp) : Prop :=
  map forget_connections (fst st) = map forget_connections ps0
  /\ exists lines,
       snd st = log0 ++ lines
       /\ Forall (edge_of cfg ps0) lines
       /\ Forall (line_alpha_ok cfg) lines
       /\ total_connections (fst st)
          = (total_connections ps0 + 2 * Z.of_nat (length lines))%Z.


(** Events that leave the particle array alone once it is empty: all but
    the three that run [init] again. *)
Definition no_reinit (e : Event) : bool :=
  match e with
  | ResizeTimeout | ApiReinit | ApiSetConfig _ => false
  | _ => true
  end.

(** [v] lies between [a] and [b], whichever of the two is the smaller. *)
Definition between (a b v : R) : Prop := Rmin a b <= v <= Rmax a b.

(** A particle as [reset()] makes them under the configuration [cfg]:
    size between the configured sizes, opacity in [0.3, 0.7), velocity of
    a magnitude between the configured speeds. *)
Definition conforms (cfg : Config) (p : Particle.t) : Prop :=
  between (minParticleSize cfg) (maxParticleSize cfg) (Particle.size p)
  /\ 0.3 <= Particle.opacity p < 0.7
  /\ exists speed,
       between (minSpeed cfg) (maxSpeed cfg) speed
       /\ Particle.speedX p * Particle.speedX p
          + Particle.speedY p * Particle.speedY p = speed * speed.

(** [Math.random()] returns values of [0, 1). *)
Definition random_ok (pf : Platform) : Prop :=
  forall k, 0 <= Math_random pf k < 1.

(** Particles agree with the configuration in force. *)
Definition conf_inv (s : State) : Prop :=
  random_ok (platform s) /\ Forall (conforms (CONFIG s)) (particles s).

(** * The motion preference script ([motion.js])

    The script keeps one flag, [motionEnabled], and mirrors it in four
    places: the [--motion-scale] custom property of the root element, the
    toggle button's attributes, the [motion-reduced] class of the body,
    and, once the user has chosen, the [motionEnabled] item of
    [localStorage].  The glyph of the button's icon is left out. *)

Module Motion.

Record Button := { aria_pressed : String.string; title : String.string }.

(** The page as the script finds it when it runs. *)
Record Page := {
  prefers_reduced : bool;
  stored : option String.string;
  toggle_button : option Button;
  form_status : option String.string
}.

Record t := {
  motionEnabled : bool;
  system_reduced : bool;
  localStorage : option String.string;
  motion_scale : String.string;
  motionToggleBtn : option Button;
  motion_reduced : bool;
  liveRegion : option String.string
}.

(** [String(b)], as [localStorage.setItem] stores a boolean. *)
Definition String_of_bool (b : bool) : String.string :=
  if b then "true"%string else "false"%string.

(** [setMotionScale(enabled)] *)
Definition setMotionScale (enabled : bool) (st : t) : t :=
  {| motionEnabled := motionEnabled st;
     system_reduced := system_reduced st;
     localStorage := localStorage st;
     (* Set CSS variable: 1 for full motion, 0 for no motion *)
     motion_scale := if enabled then "1"%string else "0"%string;
     (* Update button state *)
     motionToggleBtn :=
       match motionToggleBtn st with
       | Some _ =>
           Some {| aria_pressed :=
                     if enabled then "true"%string else "false"%string;
                   title :=
                     if enabled then "Disable animations"%string
                     else "Enable animations"%string |}
       | None => None
       end;
     (* Add class to body for additional CSS hooks *)
     motion_reduced := negb enabled;
     liveRegion := liveRegion st |}.

Definition set_motionEnabled (b : bool) (st : t) : t :=
  {| motionEnabled := b;
     system_reduced := system_reduced st;
     localStorage := localStorage st;
     motion_scale := motion_scale st;
     motionToggleBtn := motionToggleBtn st;
     motion_reduced := motion_reduced st;
     liveRegion := liveRegion st |}.

Definition set_localStorage (v : option String.string) (st : t) : t :=
  {| motionEnabled := motionEnabled st;
     system_reduced := system_reduced st;
     localStorage := v;
     motion_scale := motion_scale st;
     motionToggleBtn := motionToggleBtn st;
     motion_reduced := motion_reduced st;
     liveRegion := liveRegion st |}.

Definition set_system_reduced (b : bool) (st : t) : t :=
  {| motionEnabled := motionEnabled st;
     system_reduced := b;
     localStorage := localStorage st;
     motion_scale := motion_scale st;
     motionToggleBtn := motionToggleBtn st;
     motion_reduced := motion_reduced st;
     liveRegion := liveRegion st |}.

Definition set_liveRegion (v : option String.string) (st : t) : t :=
  {| motionEnabled := motionEnabled st;
     system_reduced := system_reduced st;
     localStorage := localStorage st;
     motion_scale := motion_scale st;
     motionToggleBtn := motionToggleBtn st;
     motion_reduced := motion_reduced st;
     liveRegion := v |}.

(** [announceToScreenReader(message)]; the text is cleared a second
    later, by [announce_timeout]. *)
Definition announceToScreenReader (message : String.string) (st : t) : t :=
  match liveRegion st with
  | Some _ => set_liveRegion (Some message) st
  | None => st
  end.

Definition announce_timeout (st : t) : t :=
  match liveRegion st with
  | Some _ => set_liveRegion (Some ""%string) st
  | None => st
  end.

(** The script body: stored preference first, system preference
    otherwise. *)
Definition load (pg : Page) : t :=
  let enabled :=
    match stored pg with
    | None => negb (prefers_reduced pg)
    | Some v => String.eqb v "true"
    end in
  setMotionScale enabled
    {| motionEnabled := enabled;
       system_reduced := prefers_reduced pg;
       localStorage := stored pg;
       motion_scale := ""%string;
       motionToggleBtn := toggle_button pg;
       motion_reduced := false;
       liveRegion := form_status pg |}.

(** The click handler of the toggle button (there is none without a
    button). *)
Definition click (st : t) : t :=
  match motionToggleBtn st with
  | None => st
  | Some _ =>
      let enabled := negb (motionEnabled st) in
      let st1 := set_motionEnabled enabled st in
      let st2 := set_localStorage (Some (String_of_bool enabled)) st1 in
      let st3 := setMotionScale enabled st2 in
      announceToScreenReader
        (if enabled then "Animations enabled"%string
         else "Animations disabled"%string) st3
  end.

(** The [change] listener of the media query. *)
Definition media_change (matches : bool) (st : t) : t :=
  let st1 := set_system_reduced matches st in
  (* Only update if user hasn't set manual preference *)
  match localStorage st1 with
  | None => setMotionScale (negb matches) (set_motionEnabled (negb matches) st1)
  | Some _ => st1
  end.

(** [window.motionUtils] *)
Definition isMotionEnabled (st : t) : bool := motionEnabled st.

Definition setMotionEnabled (enabled : bool) (st : t) : t :=
  setMotionScale enabled
    (set_localStorage (Some (String_of_bool enabled))
       (set_motionEnabled enabled st)).

(** [String.prototype.trim], on the white space of ASCII. *)
Definition is_space (c : Ascii.ascii) : bool :=
  let n := Ascii.nat_of_ascii c in
  (Nat.eqb n 32 || (Nat.leb 9 n && Nat.leb n 13))%bool.

Fixpoint trimStart (l : list Ascii.ascii) : list Ascii.ascii :=
  match l with
  | [] => []
  | c :: l' => if is_space c then trimStart l' else l
  end.

Definition trim (v : String.string) : String.string :=
  String.string_of_list_ascii
    (rev (trimStart (rev (trimStart (String.list_ascii_of_string v))))).

Section WithParseFloat.

(** [parseFloat] is the platform's; [None] stands for [NaN]. *)
Variable parseFloat : String.string -> option R.

(** [getMotionScale()]: [parseFloat(value) || 0] *)
Definition getMotionScale (st : t) : R :=
  let value := trim (motion_scale st) in
  match parseFloat value with
  | Some v => if Req_dec_T v 0 then 0 else v
  | None => 0
  end.

End WithParseFloat.

Inductive Event :=
| Click
| MediaChange (matches : bool)
| SetMotionEnabled (enabled : bool)
| AnnounceTimeout.

Definition step (e : Event) (st : t) : t :=
  match e with
  | Click => click st
  | MediaChange m => media_change m st
  | SetMotionEnabled b => setMotionEnabled b st
  | AnnounceTimeout => announce_timeout st
  end.

Definition run (evs : list Event) (st : t) : t :=
  fold_left (fun acc e => step e acc) evs st.

(** The page a reload finds after the script has been in state [st], the
    system preference being [system] by then. *)
Definition reload_page (system : bool) (st : t) : Page :=
  {| prefers_reduced := system;
     stored := localStorage st;
     toggle_button := motionToggleBtn st;
     form_status := liveRegion st |}.

(** The mirrors agree with the flag. *)
Definition in_sync (st : t) : Prop :=
  motion_scale st = (if motionEnabled st then "1" else "0")%string
  /\ motion_reduced st = negb (motionEnabled st)
  /\ match motionToggleBtn st with
     | Some b =>
         aria_pressed b = (if motionEnabled st then "true" else "false")%string
         /\ title b
            = (if motionEnabled st then "Disable animations"
               else "Enable animations")%string
     | None => True
     end.

(** A [parseFloat] for the two values the script writes. *)
Definition parseFloat_01 (v : String.string) : option R :=
  if String.eqb v "1" then Some 1
  else if String.eqb v "0" then Some 0
  else None.

End Motion.

(** The particle script's page when [motion.js] has run on it. *)
Definition with_motion (parseFloat : String.string -> option R) (m : Motion.t)
  (pf : Platform) : Platform :=
  set_motionUtils (Some (Motion.getMotionScale parseFloat m)) pf.

(** * Properties *)

(** ** Proof tools *)

(** Reduce projections of updated records. *)
Ltac unfold_setters :=
  cbn [CONFIG motionScale canvas_width canvas_height canvas_parentNode ctx_log
       particles animationFrame isVisible lastFrameTime checkMotion platform
       set_platform set_CONFIG set_canvas_size set_canvas_parentNode
       set_ctx_log set_particles set_animationFrame set_isVisible
       set_lastFrameTime set_checkMotion
       container devicePixelRatio Date_now Math_random motionUtils
       document_hidden raf_next raf_pending
       requestAnimationFrame cancelAnimationFrame set_raf_pending
       set_Math_random set_Date_now set_container set_motionUtils
       set_document_hidden fst snd] in *.

(** ** Number tests, [Math.floor] *)

Lemma ltR_true (a b : R) : a < b -> ltR a b = true.
Proof. intros H. unfold ltR. destruct (Rlt_dec a b); [reflexivity | contradiction]. Qed.

Lemma ltR_false (a b : R) : b <= a -> ltR a b = false.
Proof. intros H. unfold ltR. destruct (Rlt_dec a b); [lra | reflexivity]. Qed.

Lemma ltR_spec (a b : R) : reflect (a < b) (ltR a b).
Proof. unfold ltR. destruct (Rlt_dec a b); constructor; assumption. Qed.

Lemma Math_floor_nonneg (v : R) : 0 <= v -> (0 <= Math_floor v)%Z.
Proof.
  intros Hv. unfold Math_floor.
  destruct (base_Int_part v) as [_ Hgt].
  assert (Hlt : IZR (-1) < IZR (Int_part v)) by (simpl (IZR (-1)); lra).
  apply lt_IZR in Hlt. lia.
Qed.

Lemma Math_floor_IZR (z : Z) : Math_floor (IZR z) = z.
Proof. unfold Math_floor. symmetry. apply Int_part_spec. lra. Qed.

(** ** Counted loops *)

Lemma for_steps_invariant {S : Type} (P : S -> Prop) (body : nat -> S -> S) :
  (forall i s, P s -> P (body i s)) ->
  forall k i s, P s -> P (for_steps k i body s).
Proof.
  intros Hbody k. induction k as [|k IH]; intros i s Hs; simpl.
  - exact Hs.
  - apply IH, Hbody, Hs.
Qed.

Lemma for_loop_invariant {S : Type} (P : S -> Prop) (body : nat -> S -> S) :
  (forall i s, P s -> P (body i s)) ->
  forall lo hi s, P s -> P (for_loop lo hi body s).
Proof. intros Hbody lo hi s. unfold for_loop. now apply for_steps_invariant. Qed.

Lemma modify_nth_length {A : Type} (k : nat) (f : A -> A) (l : list A) :
  length (modify_nth k f l) = length l.
Proof.
  revert k. induction l as [|a l IH]; intros [|k]; simpl; auto.
Qed.

Lemma modify_nth_map {A B : Type} (g : A -> B) (f : A -> A) (k : nat) (l : list A) :
  (forall a, g (f a) = g a) ->
  map g (modify_nth k f l) = map g l.
Proof.
  intros Hgf. revert k. induction l as [|a l IH]; intros [|k]; simpl; auto.
  - now rewrite Hgf.
  - now rewrite IH.
Qed.

Lemma modify_nth_Forall {A : Type} (P : A -> Prop) (f : A -> A) (k : nat)
  (l : list A) :
  (forall a, P a -> P (f a)) -> Forall P l -> Forall P (modify_nth k f l).
Proof.
  intros Hf. revert k. induction l as [|a l IH]; intros k Hl.
  - destruct k; constructor.
  - inversion Hl as [|? ? Ha Hl']; subst.
    destruct k; simpl; constructor; auto.
Qed.

(** ** Particle.update *)

(** When the moved position stays in the canvas rectangle, [update] does
    not wrap: the new position is the old one plus the displacement. *)
Lemma update_no_wrap (motionScale' deltaTime : R) (p : Particle.t) :
  0 <= Particle.x p + Particle.speedX p * motionScale' * deltaTime
    <= Particle.canvasWidth p ->
  Particle.x (Particle.update motionScale' deltaTime p)
  = Particle.x p + Particle.speedX p * motionScale' * deltaTime.
Proof.
  intros H. unfold Particle.update, gtR. cbn [Particle.x].
  rewrite (ltR_false (Particle.canvasWidth p)) by lra.
  rewrite ltR_false by lra. reflexivity.
Qed.

Lemma update_no_wrap_y (motionScale' deltaTime : R) (p : Particle.t) :
  0 <= Particle.y p + Particle.speedY p * motionScale' * deltaTime
    <= Particle.canvasHeight p ->
  Particle.y (Particle.update motionScale' deltaTime p)
  = Particle.y p + Particle.speedY p * motionScale' * deltaTime.
Proof.
  intros H. unfold Particle.update, gtR. cbn [Particle.y].
  rewrite (ltR_false (Particle.canvasHeight p)) by lra.
  rewrite ltR_false by lra. reflexivity.
Qed.

(** The wrap of one coordinate lands in the closed interval. *)
Lemma wrap_closed (v w : R) :
  0 <= w ->
  0 <= (if ltR (if gtR v w then 0 else v) 0 then w
        else (if gtR v w then 0 else v)) <= w.
Proof.
  intros Hw. unfold gtR.
  destruct (ltR_spec w v).
  - rewrite ltR_false by lra. lra.
  - destruct (ltR_spec v 0); lra.
Qed.

(** C5, as stated, fails: a particle at the left edge that moves left is
    put on the right edge, at [x = canvasWidth], which is not below the
    width. *)
Lemma update_reaches_width :
  let p := Particle.mk 800 600 0 300 2 (-0.3) 0 0.5 0 in
  let p' := Particle.update 1 1 p in
  Particle.x p' = 800
  /\ ~ (0 <= Particle.x p' < Particle.canvasWidth p'
        /\ 0 <= Particle.y p' < Particle.canvasHeight p').
Proof.
  cbv zeta.
  assert (E : Particle.x
                (Particle.update 1 1 (Particle.mk 800 600 0 300 2 (-0.3) 0 0.5 0))
              = 800).
  { unfold Particle.update, gtR.
    cbn [Particle.x Particle.speedX Particle.canvasWidth].
    rewrite (ltR_false 800 (0 + -0.3 * 1 * 1)) by lra.
    rewrite (ltR_true (0 + -0.3 * 1 * 1) 0) by lra. reflexivity. }
  split; [exact E | ].
  rewrite E. cbn [Particle.update Particle.canvasWidth].
  intros [[_ H] _]. lra.
Qed.

(** C5, amended: after [update] has applied the wrap-around, the position
    lies in the closed rectangle, [0 <= x <= canvasWidth] and
    [0 <= y <= canvasHeight], on a canvas of non-negative width and
    height. *)
Theorem update_position_closed_bounds
  (motionScale' deltaTime : R) (p : Particle.t) :
  0 <= Particle.canvasWidth p ->
  0 <= Particle.canvasHeight p ->
  let p' := Particle.update motionScale' deltaTime p in
  0 <= Particle.x p' <= Particle.canvasWidth p'
  /\ 0 <= Particle.y p' <= Particle.canvasHeight p'.
Proof.
  intros Hw Hh. cbv zeta. unfold Particle.update.
  cbn [Particle.x Particle.y Particle.canvasWidth Particle.canvasHeight].
  split; apply wrap_closed; assumption.
Qed.

Lemma update_position_closed_bounds_witness :
  let p := Particle.mk 800 600 0 300 2 (-0.3) 0 0.5 0 in
  let p' := Particle.update 1 1 p in
  0 <= Particle.x p' <= Particle.canvasWidth p'
  /\ 0 <= Particle.y p' <= Particle.canvasHeight p'.
Proof.
  apply (update_position_closed_bounds 1 1
           (Particle.mk 800 600 0 300 2 (-0.3) 0 0.5 0)); simpl; lra.
Defined.

(** A freshly constructed particle lies in the canvas rectangle, whenever
    [Math.random()] returns values of [0, 1). *)
Lemma new_particle_in_bounds (cfg : Config) (rnd : nat -> R) (w h : R) :
  0 <= w -> 0 <= h -> (forall k, 0 <= rnd k < 1) ->
  let p := Particle.new cfg rnd w h in
  0 <= Particle.x p <= Particle.canvasWidth p
  /\ 0 <= Particle.y p <= Particle.canvasHeight p.
Proof.
  intros Hw Hh Hr. cbv zeta. unfold Particle.new, Particle.reset.
  cbn [Particle.x Particle.y Particle.canvasWidth Particle.canvasHeight].
  pose proof (Hr 0%nat) as H0. pose proof (Hr 1%nat) as H1.
  split; nra.
Qed.

(** C6: with [motionScale = 0], [update] leaves the position of a particle
    that lies in its canvas rectangle exactly where it was, whatever the
    velocity and the elapsed time. *)
Theorem update_zero_motion_freezes (deltaTime : R) (p : Particle.t) :
  0 <= Particle.x p <= Particle.canvasWidth p ->
  0 <= Particle.y p <= Particle.canvasHeight p ->
  Particle.x (Particle.update 0 deltaTime p) = Particle.x p
  /\ Particle.y (Particle.update 0 deltaTime p) = Particle.y p.
Proof.
  intros Hx Hy. split.
  - rewrite update_no_wrap; [ring | ].
    replace (Particle.x p + Particle.speedX p * 0 * deltaTime)
      with (Particle.x p) by ring.
    exact Hx.
  - rewrite update_no_wrap_y; [ring | ].
    replace (Particle.y p + Particle.speedY p * 0 * deltaTime)
      with (Particle.y p) by ring.
    exact Hy.
Qed.

Lemma update_zero_motion_freezes_witness :
  let p := Particle.mk 800 600 120 45 2 0.3 (-0.4) 0.5 2 in
  Particle.x (Particle.update 0 1.5 p) = Particle.x p
  /\ Particle.y (Particle.update 0 1.5 p) = Particle.y p.
Proof.
  apply (update_zero_motion_freezes 1.5
           (Particle.mk 800 600 120 45 2 0.3 (-0.4) 0.5 2)); simpl; lra.
Defined.

(** ** init *)

Lemma init_push_length (cfg : Config) (w h : R) (k i : nat)
  (st : list Particle.t * (nat -> R)) :
  length (fst (for_steps k i (init_push cfg w h) st)) = (length (fst st) + k)%nat.
Proof.
  revert i st. induction k as [|k IH]; intros i [ps rnd]; simpl.
  - lia.
  - rewrite IH. simpl. rewrite length_app. simpl. lia.
Qed.

(** The loop of [init] runs [particleCount] times, and not at all when
    that number is negative. *)
Lemma init_particle_count (s : State) :
  length (particles (init s))
  = Z.to_nat
      (Math_minZ
         (Math_floor (fst (container_rect (platform s))
                      * snd (container_rect (platform s)) / 15000))
         (particleCount (CONFIG s))).
Proof.
  unfold init, resizeCanvas. cbv zeta.
  cbn [fst snd set_particles set_canvas_size CONFIG particles platform].
  unfold for_loop. rewrite Nat.sub_0_r.
  match goal with
  | |- context [for_steps ?k ?i ?b ?st] =>
      pose proof (init_push_length (CONFIG s)
                    (fst (container_rect (platform s)))
                    (snd (container_rect (platform s))) k i st) as Hlen;
      destruct (for_steps k i b st) as [ps rnd] eqn:E
  end.
  cbn [particles set_platform set_particles fst length] in *.
  rewrite Hlen. reflexivity.
Qed.

(** What [init] leaves alone. *)
Lemma init_lifecycle (s : State) :
  animationFrame (init s) = animationFrame s
  /\ isVisible (init s) = isVisible s
  /\ raf_next (platform (init s)) = raf_next (platform s)
  /\ raf_pending (platform (init s)) = raf_pending (platform s)
  /\ motionScale (init s) = motionScale s
  /\ checkMotion (init s) = checkMotion s
  /\ motionUtils (platform (init s)) = motionUtils (platform s).
Proof.
  unfold init, resizeCanvas. cbv zeta.
  destruct (for_loop _ _ _ _) as [ps rnd].
  unfold_setters. repeat split; reflexivity.
Qed.

(** C7: on a container of width [w] and height [h], [init] creates exactly
    [min(floor(w * h / 15000), CONFIG.particleCount)] particles, whether
    the floor term is below, at or above the configured maximum; the box
    has non-negative sides and the configured maximum is not negative. *)
Theorem init_density_scaling (s : State) (w h : R) :
  container (platform s) = Some (w, h) ->
  0 <= w -> 0 <= h ->
  (0 <= particleCount (CONFIG s))%Z ->
  Z.of_nat (getParticleCount (init s))
  = Z.min (Math_floor (w * h / 15000)) (particleCount (CONFIG s)).
Proof.
  intros Hc Hw Hh Hmax. unfold getParticleCount.
  rewrite init_particle_count. unfold container_rect. rewrite Hc.
  cbn [fst snd]. unfold Math_minZ.
  assert (Hfloor : (0 <= Math_floor (w * h / 15000))%Z).
  { apply Math_floor_nonneg. apply Rmult_le_pos; [nra | lra]. }
  rewrite Z2Nat.id by lia. reflexivity.
Qed.

Lemma init_density_scaling_witness :
  Z.of_nat (getParticleCount (init (running default_CONFIG [])))
  = Z.min (Math_floor (800 * 600 / 15000))
          (particleCount (CONFIG (running default_CONFIG []))).
Proof.
  apply (init_density_scaling (running default_CONFIG []) 800 600).
  - reflexivity.
  - lra.
  - lra.
  - simpl. lia.
Defined.

(** The three regimes of the density formula on the default configuration
    (at most 50 particles): an area of 49, of 50 and of 51 times 15000. *)
Lemma init_density_below_at_above (s : State) (w : R) :
  container (platform s) = Some (w, 750) ->
  particleCount (CONFIG s) = 50%Z ->
  (w = 980 -> getParticleCount (init s) = 49%nat)
  /\ (w = 1000 -> getParticleCount (init s) = 50%nat)
  /\ (w = 1020 -> getParticleCount (init s) = 50%nat).
Proof.
  intros Hc Hmax. unfold getParticleCount. rewrite init_particle_count.
  unfold container_rect. rewrite Hc, Hmax. cbn [fst snd]. unfold Math_minZ.
  repeat split; intros ->.
  - replace (980 * 750 / 15000) with (IZR 49) by lra.
    now rewrite Math_floor_IZR.
  - replace (1000 * 750 / 15000) with (IZR 50) by lra.
    now rewrite Math_floor_IZR.
  - replace (1020 * 750 / 15000) with (IZR 51) by lra.
    now rewrite Math_floor_IZR.
Qed.

(** The script on a 150 x 100 container: one particle, loop started. *)
Lemma load_small_page : load (page 150 100 0.5) = Some small_field.
Proof.
  unfold load, page. cbn [container getMotionScale_or_1 motionUtils].
  destruct (Req_dec_T 1 0) as [E|_]; [lra | ].
  f_equal. unfold init, resizeCanvas. cbv zeta.
  cbn [platform container_rect container devicePixelRatio fst snd].
  destruct (Req_dec_T 1 0) as [E|_]; [lra | ].
  unfold_setters.
  replace (150 * 100 / 15000) with (IZR 1) by lra.
  rewrite Math_floor_IZR.
  reflexivity.
Qed.

Lemma small_field_particle :
  let p := Particle.new default_CONFIG (fun _ => 0.5) 150 100 in
  Particle.x p = 75 /\ Particle.y p = 50
  /\ Particle.speedX p = -0.3 /\ Particle.speedY p = 0
  /\ Particle.canvasWidth p = 150 /\ Particle.canvasHeight p = 100.
Proof.
  cbv zeta. unfold Particle.new, Particle.reset.
  cbn [Particle.x Particle.y Particle.speedX Particle.speedY
       Particle.canvasWidth Particle.canvasHeight
       maxSpeed minSpeed default_CONFIG].
  replace (0.5 * PI * 2) with PI by lra.
  rewrite cos_PI, sin_PI. repeat split; lra.
Qed.

Lemma small_field_reachable : reachable small_field.
Proof.
  exists (page 150 100 0.5), small_field, [].
  split; [reflexivity | ]. split; [reflexivity | ].
  split; [apply load_small_page | reflexivity].
Qed.

(** ** The connection pass: what it keeps *)

Lemma drawConnections_inner_forget (cfg : Config) (i j : nat)
  (st : list Particle.t * list DrawOp) :
  map forget_connections (fst (drawConnections_inner cfg i j st))
  = map forget_connections (fst st).
Proof.
  unfold drawConnections_inner. cbv zeta.
  destruct (nth_error (fst st) i) as [p1|]; [ | reflexivity].
  destruct (nth_error (fst st) j) as [p2|]; [ | reflexivity].
  destruct (Particle.connections p2 >=? maxConnections cfg)%Z; [reflexivity | ].
  destruct (ltR _ _); [ | reflexivity].
  cbn [fst]. rewrite !modify_nth_map; reflexivity.
Qed.

(** The pass changes the counters and nothing else in a particle. *)
Lemma drawConnections_pass_forget (cfg : Config)
  (st : list Particle.t * list DrawOp) :
  map forget_connections (fst (drawConnections_pass cfg st))
  = map forget_connections (fst st).
Proof.
  unfold drawConnections_pass.
  apply (for_loop_invariant
           (fun st' => map forget_connections (fst st')
                       = map forget_connections (fst st))); [ | reflexivity].
  intros i st' Hst'. unfold drawConnections_outer.
  destruct (nth_error (fst st') i) as [p1|]; [ | exact Hst'].
  destruct (Particle.connections p1 >=? maxConnections cfg)%Z; [exact Hst' | ].
  apply (for_loop_invariant
           (fun st'' => map forget_connections (fst st'')
                        = map forget_connections (fst st))); [ | exact Hst'].
  intros j st'' Hst''. now rewrite drawConnections_inner_forget.
Qed.

(** Counters only grow: a pass entered with counters at 0 or more leaves
    them at 0 or more. *)
Lemma drawConnections_pass_nonneg (cfg : Config)
  (st : list Particle.t * list DrawOp) :
  Forall (fun p => (0 <= Particle.connections p)%Z) (fst st) ->
  Forall (fun p => (0 <= Particle.connections p)%Z)
         (fst (drawConnections_pass cfg st)).
Proof.
  set (ok := fun st' : list Particle.t * list DrawOp =>
               Forall (fun p => (0 <= Particle.connections p)%Z) (fst st')).
  intros H0. unfold drawConnections_pass.
  apply (for_loop_invariant ok); [ | exact H0].
  intros i st' Hst'. unfold drawConnections_outer.
  destruct (nth_error (fst st') i) as [p1|]; [ | exact Hst'].
  destruct (Particle.connections p1 >=? maxConnections cfg)%Z; [exact Hst' | ].
  apply (for_loop_invariant ok); [ | exact Hst'].
  intros j st'' Hst''. unfold drawConnections_inner. cbv zeta.
  destruct (nth_error (fst st'') i) as [q1|]; [ | exact Hst''].
  destruct (nth_error (fst st'') j) as [q2|]; [ | exact Hst''].
  destruct (Particle.connections q2 >=? maxConnections cfg)%Z; [exact Hst'' | ].
  destruct (ltR _ _); [ | exact Hst''].
  unfold ok in *. cbn [fst].
  assert (Hincr : forall a : Particle.t,
            (0 <= Particle.connections a)%Z ->
            (0 <= Particle.connections (incr_connections a))%Z).
  { intros a Ha. unfold incr_connections. cbn [Particle.connections]. lia. }
  apply modify_nth_Forall; [exact Hincr | ].
  apply modify_nth_Forall; [exact Hincr | exact Hst''].
Qed.

(** ** animate *)

Lemma animate_visible (t : R) (s : State) :
  isVisible s = true ->
  particles (animate t s)
  = fst (drawConnections_pass (CONFIG s)
           (map (Particle.update (motionScale s)
                   (deltaTime_of t (lastFrameTime s))) (particles s),
            (ctx_log s ++ [ClearRect 0 0 (canvas_width s) (canvas_height s)])
            ++ map (Particle.draw (CONFIG s))
                 (map (Particle.update (motionScale s)
                         (deltaTime_of t (lastFrameTime s))) (particles s)))).
Proof.
  intros Hv. unfold animate. rewrite Hv. cbn [negb]. cbv zeta.
  unfold drawConnections, requestAnimationFrame. cbv zeta.
  unfold_setters. reflexivity.
Qed.

(** After a frame, every particle is where [update] put it. *)
Lemma animate_bodies (t : R) (s : State) :
  isVisible s = true ->
  map forget_connections (particles (animate t s))
  = map (Particle.update (motionScale s) (deltaTime_of t (lastFrameTime s)))
        (particles s).
Proof.
  intros Hv. rewrite animate_visible by exact Hv.
  rewrite drawConnections_pass_forget. cbn [fst].
  rewrite map_map. apply map_ext. intros p. reflexivity.
Qed.

Lemma animate_particle (t : R) (s : State) (i : nat) (p : Particle.t) :
  isVisible s = true ->
  nth_error (particles s) i = Some p ->
  exists p',
    nth_error (particles (animate t s)) i = Some p'
    /\ forget_connections p'
       = Particle.update (motionScale s) (deltaTime_of t (lastFrameTime s)) p.
Proof.
  intros Hv Hp.
  pose proof (animate_bodies t s Hv) as Hb.
  assert (H : nth_error (map forget_connections (particles (animate t s))) i
              = Some (Particle.update (motionScale s)
                        (deltaTime_of t (lastFrameTime s)) p)).
  { rewrite Hb. rewrite nth_error_map, Hp. reflexivity. }
  rewrite nth_error_map in H.
  destruct (nth_error (particles (animate t s)) i) as [p'|]; [ | discriminate].
  exists p'. split; [reflexivity | ]. cbn in H. congruence.
Qed.

(** The lower half of the degree bound: after a frame no counter is
    negative. *)
Lemma animate_connections_nonneg (t : R) (s : State) :
  isVisible s = true ->
  Forall (fun p => (0 <= Particle.connections p)%Z) (particles (animate t s)).
Proof.
  intros Hv. rewrite animate_visible by exact Hv.
  apply drawConnections_pass_nonneg. cbn [fst].
  apply Forall_forall. intros p Hin. apply in_map_iff in Hin.
  destruct Hin as (q & <- & _). cbn [Particle.update Particle.connections]. lia.
Qed.

(** ** The frame's time step *)




Lemma deltaTime_one_frame (t0 : R) : deltaTime_of (t0 + 16.67) t0 = 1.
Proof.
  unfold deltaTime_of, Math_min.
  replace ((t0 + 16.67 - t0) / 16.67) with 1 by (field; lra).
  apply Rmin_left. lra.
Qed.






(** ** Lifecycle: start, stop and the frame scheduler *)

Lemma truthy_pos (h : Z) : (0 < h)%Z -> truthy (Some h) = true.
Proof. intros H. unfold truthy. destruct (Z.eqb_spec h 0); [lia | reflexivity]. Qed.

Lemma start_inv (s : State) : lifecycle_inv s -> lifecycle_inv (start s).
Proof.
  intros [Hn H]. unfold start.
  destruct (animationFrame s) as [h|] eqn:E.
  - destruct H as (Hh & Hv & Hp). rewrite truthy_pos by lia.
    unfold lifecycle_inv. rewrite E. auto.
  - destruct H as (Hv & Hp). cbn [truthy]. cbv zeta. unfold_setters.
    unfold lifecycle_inv. unfold_setters. rewrite Hp. cbn [app].
    repeat split; lia.
Qed.

Lemma stop_inv (s : State) : lifecycle_inv s -> lifecycle_inv (stop s).
Proof.
  intros [Hn H]. unfold stop.
  destruct (animationFrame s) as [h|] eqn:E.
  - destruct H as (Hh & Hv & Hp). rewrite truthy_pos by lia.
    unfold lifecycle_inv. unfold_setters. rewrite Hp. cbn [filter].
    rewrite Z.eqb_refl. cbn [negb]. auto.
  - unfold lifecycle_inv. unfold_setters. rewrite E. destruct H; auto.
Qed.

Lemma init_inv (s : State) : lifecycle_inv s -> lifecycle_inv (init s).
Proof.
  unfold lifecycle_inv.
  destruct (init_lifecycle s) as (-> & -> & -> & -> & _). auto.
Qed.

Lemma lifecycle_inv_irrelevant (s s' : State) :
  animationFrame s' = animationFrame s ->
  isVisible s' = isVisible s ->
  raf_next (platform s') = raf_next (platform s) ->
  raf_pending (platform s') = raf_pending (platform s) ->
  lifecycle_inv s -> lifecycle_inv s'.
Proof. unfold lifecycle_inv. intros -> -> -> ->. auto. Qed.

Lemma destroy_inv (s : State) : lifecycle_inv s -> lifecycle_inv (destroy s).
Proof.
  intros H. apply stop_inv in H. unfold destroy. cbv zeta.
  apply (lifecycle_inv_irrelevant (stop s)); auto;
    destruct (canvas_parentNode (stop s)); reflexivity.
Qed.

Lemma drawConnections_lifecycle (s : State) :
  animationFrame (drawConnections s) = animationFrame s
  /\ isVisible (drawConnections s) = isVisible s
  /\ platform (drawConnections s) = platform s.
Proof. unfold drawConnections. cbv zeta. unfold_setters. auto. Qed.

Lemma deliver_frame_inv (t : R) (s : State) :
  lifecycle_inv s -> lifecycle_inv (deliver_frame t s).
Proof.
  intros [Hn H]. unfold deliver_frame.
  destruct (animationFrame s) as [h|] eqn:E.
  - destruct H as (Hh & Hv & Hp). rewrite Hp.
    unfold animate. unfold_setters. rewrite Hv. cbn [negb]. cbv zeta.
    unfold drawConnections. cbv zeta. unfold_setters.
    unfold lifecycle_inv. unfold_setters. cbn [app]. repeat split; try lia; assumption.
  - destruct H as (Hv & Hp). rewrite Hp. unfold lifecycle_inv. rewrite E. auto.
Qed.

Lemma step_inv (e : Event) (s : State) :
  lifecycle_inv s -> lifecycle_inv (step e s).
Proof.
  intros H. destruct e; cbn [step].
  - now apply deliver_frame_inv.
  - now apply start_inv, init_inv, stop_inv.
  - unfold on_visibilitychange. cbv zeta.
    destruct (document_hidden _);
      [apply stop_inv | apply start_inv];
      (eapply lifecycle_inv_irrelevant; [ | | | | exact H]; reflexivity).
  - unfold motion_poll. destruct (checkMotion s); [ | exact H].
    destruct (Req_dec_T _ _); [ | exact H].
    destruct (isVisible s); [ | exact H].
    apply (lifecycle_inv_irrelevant (destroy s)); try reflexivity.
    now apply destroy_inv.
  - now apply destroy_inv.
  - now apply start_inv.
  - now apply stop_inv.
  - now apply destroy_inv.
  - now apply start_inv, init_inv, stop_inv.
  - unfold setConfig, reinit. apply start_inv, init_inv, stop_inv.
    eapply lifecycle_inv_irrelevant; [ | | | | exact H]; reflexivity.
  - eapply lifecycle_inv_irrelevant; [ | | | | exact H]; reflexivity.
  - eapply lifecycle_inv_irrelevant; [ | | | | exact H]; reflexivity.
  - destruct (motionUtils (platform s)); [ | exact H].
    eapply lifecycle_inv_irrelevant; [ | | | | exact H]; reflexivity.
Qed.

Lemma run_inv (evs : list Event) (s : State) :
  lifecycle_inv s -> lifecycle_inv (run evs s).
Proof.
  unfold run. revert s. induction evs as [|e evs IH]; intros s H; simpl.
  - exact H.
  - apply IH, step_inv, H.
Qed.

Lemma load_inv (pf : Platform) (s : State) :
  (0 < raf_next pf)%Z -> raf_pending pf = [] ->
  load pf = Some s -> lifecycle_inv s.
Proof.
  intros Hn Hp. unfold load.
  destruct (container pf); [ | discriminate].
  cbv zeta. destruct (Req_dec_T _ _); [discriminate | ].
  intros [= <-].
  match goal with |- lifecycle_inv (start (init ?s0)) => set (st := s0) end.
  destruct (init_lifecycle st) as (Ha & Hv & Hn' & Hp' & _).
  unfold start. rewrite Ha. subst st. unfold_setters. cbn [truthy]. cbv zeta.
  unfold lifecycle_inv. unfold_setters. rewrite Hp', Hn', Hp. cbn [app].
  repeat split; lia.
Qed.

Lemma reachable_inv (s : State) : reachable s -> lifecycle_inv s.
Proof.
  intros (pf & s0 & evs & Hn & Hp & Hl & ->).
  apply run_inv. eapply load_inv; eauto.
Qed.

(** C9: in a state the running script can reach, calling [start()] while
    a frame callback is scheduled changes nothing, so exactly one callback
    stays scheduled; calling [stop()] while none is scheduled changes
    nothing; and in any such state a second [start()], or a second
    [stop()], adds nothing to the first. *)
Theorem start_stop_idempotent (s : State) :
  reachable s ->
  (raf_pending (platform s) <> [] ->
     start s = s /\ length (raf_pending (platform (start s))) = 1%nat)
  /\ (raf_pending (platform s) = [] -> stop s = s)
  /\ start (start s) = start s
  /\ stop (stop s) = stop s.
Proof.
  intros Hr. pose proof (reachable_inv s Hr) as Hi.
  assert (Hrun : forall s', lifecycle_inv s' ->
            raf_pending (platform s') <> [] -> start s' = s'
             /\ length (raf_pending (platform (start s'))) = 1%nat).
  { intros s' [Hn H] Hne. unfold start.
    destruct (animationFrame s') as [h|] eqn:E.
    - destruct H as (Hh & Hv & Hp). rewrite truthy_pos by lia.
      split; [reflexivity | now rewrite Hp].
    - destruct H as (_ & Hp). contradiction. }
  assert (Hst : forall s', lifecycle_inv s' ->
            raf_pending (platform s') = [] -> stop s' = s').
  { intros s' [Hn H] He. unfold stop.
    destruct (animationFrame s') as [h|] eqn:E.
    - destruct H as (_ & _ & Hp). congruence.
    - destruct H as (Hv & _). destruct s'; cbn in *. subst. reflexivity. }
  repeat split.
  - now apply Hrun.
  - now apply Hrun.
  - now apply Hst.
  - apply Hrun; [now apply start_inv | ].
    pose proof (start_inv s Hi) as [_ H]. unfold start in *.
    destruct Hi as [Hn Hi].
    destruct (animationFrame s) as [h|] eqn:E.
    + destruct Hi as (Hh & Hv & Hp). rewrite truthy_pos by lia. rewrite Hp. discriminate.
    + cbn [truthy]. cbv zeta. unfold_setters. destruct (raf_pending (platform s)); discriminate.
  - apply Hst; [now apply stop_inv | ].
    pose proof (stop_inv s Hi) as [_ H].
    destruct (animationFrame (stop s)) eqn:E.
    + exfalso. revert E. unfold stop. destruct Hi as [Hn Hi].
      destruct (animationFrame s) as [h|] eqn:E'.
      * destruct Hi as (Hh & _). rewrite truthy_pos by lia. discriminate.
      * unfold_setters. congruence.
    + tauto.
Qed.

Lemma start_stop_idempotent_witness :
  (raf_pending (platform small_field) <> [] ->
     start small_field = small_field
     /\ length (raf_pending (platform (start small_field))) = 1%nat)
  /\ (raf_pending (platform small_field) = [] -> stop small_field = small_field)
  /\ start (start small_field) = start small_field
  /\ stop (stop small_field) = stop small_field.
Proof.
  apply (start_stop_idempotent small_field).
  exists (page 150 100 0.5), small_field, [].
  split; [simpl; lia | ]. split; [reflexivity | ].
  split; [apply load_small_page | reflexivity].
Defined.

(** ** destroy, then start *)

Lemma stop_not_truthy (s : State) : truthy (animationFrame (stop s)) = false.
Proof.
  unfold stop.
  destruct (animationFrame s) as [h|] eqn:E.
  - destruct (truthy (Some h)) eqn:T; unfold_setters.
    + reflexivity.
    + now rewrite E.
  - unfold_setters. now rewrite E.
Qed.

Lemma destroy_effect (s : State) :
  particles (destroy s) = []
  /\ truthy (animationFrame (destroy s)) = false
  /\ isVisible (destroy s) = false
  /\ canvas_parentNode (destroy s) = false
  /\ platform (destroy s) = platform (stop s).
Proof.
  unfold destroy. cbv zeta.
  pose proof (stop_not_truthy s) as Ht.
  assert (Hv : isVisible (stop s) = false) by reflexivity.
  destruct (canvas_parentNode (stop s)) eqn:C; unfold_setters; auto.
Qed.

(** [start()] has no guard other than the handle: with no handle kept it
    always goes through. *)
Lemma start_when_stopped (s : State) :
  truthy (animationFrame s) = false ->
  start s =
  set_animationFrame (Some (raf_next (platform s)))
    (set_platform (snd (requestAnimationFrame (platform s)))
       (set_lastFrameTime (Date_now (platform s)) (set_isVisible true s))).
Proof. intros H. unfold start. rewrite H. reflexivity. Qed.

Lemma deliver_frame_no_particles (t : R) (s : State) :
  particles s = [] -> particles (deliver_frame t s) = [].
Proof.
  intros Hp. unfold deliver_frame.
  destruct (raf_pending (platform s)); [exact Hp | ].
  unfold animate. unfold_setters.
  destruct (isVisible s); cbn [negb]; [ | exact Hp].
  cbv zeta. unfold drawConnections. cbv zeta. unfold_setters.
  rewrite Hp. reflexivity.
Qed.

Lemma frames_no_particles (ts : list R) (s : State) :
  particles s = [] -> particles (run (map Frame ts) s) = [].
Proof.
  revert s. induction ts as [|t ts IH]; intros s Hp; [exact Hp | ].
  cbn [map]. unfold run. cbn [fold_left step].
  apply IH. now apply deliver_frame_no_particles.
Qed.

(** C4, as stated, fails: on the running closure, [destroy()] leaves no
    callback pending, and the [start()] that follows schedules one (handle
    2) and keeps it in [animationFrame]. *)
Lemma start_after_destroy_schedules :
  let d := destroy (running default_CONFIG [dot 10 10 0]) in
  let s := start d in
  raf_pending (platform d) = []
  /\ raf_pending (platform s) = [2%Z]
  /\ animationFrame s = Some 2%Z
  /\ ~ (raf_pending (platform s) = [] /\ getParticleCount s = 0%nat).
Proof.
  cbv zeta.
  assert (Hd : raf_pending
                 (platform (destroy (running default_CONFIG [dot 10 10 0])))
               = []) by reflexivity.
  assert (Hs : raf_pending
                 (platform
                    (start (destroy (running default_CONFIG [dot 10 10 0]))))
               = [2%Z]) by reflexivity.
  split; [exact Hd | ]. split; [exact Hs | ]. split; [reflexivity | ].
  rewrite Hs. intros [H _]. discriminate H.
Qed.

(** C4, amended: after [destroy()] the particle count is 0, and the
    [start()] that follows keeps it at 0, also through every later frame;
    but it does restart the loop: it marks the closure visible, schedules a
    frame callback and keeps its handle.  The script has no terminal
    state. *)
Theorem start_after_destroy (s : State) :
  let d := destroy s in
  let s' := start d in
  getParticleCount d = 0%nat
  /\ getParticleCount s' = 0%nat
  /\ animationFrame s' = Some (raf_next (platform d))
  /\ raf_pending (platform s')
     = raf_pending (platform d) ++ [raf_next (platform d)]
  /\ isVisible s' = true
  /\ forall ts : list R, getParticleCount (run (map Frame ts) s') = 0%nat.
Proof.
  cbv zeta. unfold getParticleCount.
  destruct (destroy_effect s) as (Hp & Ht & Hv & Hc & Hpf).
  rewrite (start_when_stopped _ Ht). unfold_setters. rewrite Hp.
  repeat split; try reflexivity.
  intros ts. rewrite frames_no_particles; [reflexivity | ].
  unfold_setters. exact Hp.
Qed.


(** ** Particles stay on the canvas *)

Lemma in_canvas_forget (p : Particle.t) :
  in_canvas (forget_connections p) <-> in_canvas p.
Proof. unfold in_canvas. cbn. tauto. Qed.

Lemma Forall_in_canvas_forget (ps qs : list Particle.t) :
  map forget_connections ps = map forget_connections qs ->
  Forall in_canvas qs -> Forall in_canvas ps.
Proof.
  intros E H.
  assert (Hq : Forall in_canvas (map forget_connections qs)).
  { apply Forall_map. revert H. apply Forall_impl.
    intros q. apply in_canvas_forget. }
  rewrite <- E in Hq. rewrite Forall_map in Hq.
  revert Hq. apply Forall_impl. intros p. apply in_canvas_forget.
Qed.

Lemma update_in_canvas (ms dt : R) (p : Particle.t) :
  in_canvas p -> in_canvas (Particle.update ms dt p).
Proof.
  intros [Hx Hy]. unfold in_canvas. unfold Particle.update.
  cbn [Particle.x Particle.y Particle.canvasWidth Particle.canvasHeight].
  split; apply wrap_closed; lra.
Qed.

Lemma animate_in_canvas (t : R) (s : State) :
  Forall in_canvas (particles s) -> Forall in_canvas (particles (animate t s)).
Proof.
  intros H. destruct (isVisible s) eqn:Hv.
  - apply (Forall_in_canvas_forget _
             (map (Particle.update (motionScale s)
                     (deltaTime_of t (lastFrameTime s))) (particles s))).
    + rewrite (animate_bodies t s Hv). rewrite map_map.
      apply map_ext. reflexivity.
    + apply Forall_map. revert H. apply Forall_impl.
      intros p. apply update_in_canvas.
  - unfold animate. rewrite Hv. exact H.
Qed.

Lemma init_in_canvas (s : State) :
  page_ok (platform s) ->
  page_ok (platform (init s)) /\ Forall in_canvas (particles (init s)).
Proof.
  intros (Hr & Hw & Hh). unfold init, resizeCanvas. cbv zeta.
  cbn [fst snd set_particles set_canvas_size CONFIG particles platform].
  set (w := fst (container_rect (platform s))) in *.
  set (h := snd (container_rect (platform s))) in *.
  set (ok := fun st : list Particle.t * (nat -> R) =>
               Forall in_canvas (fst st) /\ forall k, 0 <= snd st k < 1).
  assert (Hloop : forall n, ok (for_loop 0 n (init_push (CONFIG s) w h)
                                  ([], Math_random (platform s)))).
  { intros n. apply (for_loop_invariant ok).
    - intros i [ps rnd] [Hps Hrnd]. unfold init_push, ok. cbn [fst snd] in *.
      split.
      + apply Forall_app. split; [exact Hps | ].
        constructor; [ | constructor].
        now apply new_particle_in_bounds.
      + intros k. apply Hrnd.
    - split; [constructor | exact Hr]. }
  match goal with
  | |- context [for_loop 0 ?n _ _] => specialize (Hloop n)
  end.
  destruct (for_loop _ _ _ _) as [ps rnd]. destruct Hloop as [Hps Hrnd].
  cbn [fst snd] in *. unfold_setters.
  split; [ | exact Hps].
  unfold page_ok, container_rect. unfold_setters.
  split; [exact Hrnd | ]. split; assumption.
Qed.

Lemma stop_particles (s : State) : particles (stop s) = particles s.
Proof.
  unfold stop. destruct (animationFrame s); [ | reflexivity].
  destruct (truthy _); reflexivity.
Qed.

Lemma start_particles (s : State) : particles (start s) = particles s.
Proof. unfold start. destruct (truthy _); reflexivity. Qed.

Lemma stop_page (s : State) : page_ok (platform (stop s)) <-> page_ok (platform s).
Proof.
  unfold stop. destruct (animationFrame s); [ | reflexivity].
  destruct (truthy _); reflexivity.
Qed.

Lemma start_page (s : State) : page_ok (platform (start s)) <-> page_ok (platform s).
Proof. unfold start. destruct (truthy _); reflexivity. Qed.

Lemma destroy_page (s : State) :
  page_ok (platform (destroy s)) <-> page_ok (platform s).
Proof.
  destruct (destroy_effect s) as (_ & _ & _ & _ & ->). apply stop_page.
Qed.

Lemma reinit_in_canvas (s : State) :
  page_ok (platform s) ->
  page_ok (platform (start (init (stop s))))
  /\ Forall in_canvas (particles (start (init (stop s)))).
Proof.
  intros H. apply stop_page in H. apply init_in_canvas in H.
  destruct H as [Hp Hc]. split.
  - now apply start_page.
  - now rewrite start_particles.
Qed.

Lemma step_in_canvas (e : Event) (s : State) :
  event_ok e ->
  page_ok (platform s) /\ Forall in_canvas (particles s) ->
  page_ok (platform (step e s)) /\ Forall in_canvas (particles (step e s)).
Proof.
  intros He [Hp Hc]. destruct e; cbn [step].
  - unfold deliver_frame. destruct (raf_pending (platform s)); [now split | ].
    split.
    + unfold animate. destruct (isVisible _); [exact Hp | exact Hp].
    + apply animate_in_canvas. exact Hc.
  - now apply reinit_in_canvas.
  - unfold on_visibilitychange. cbv zeta. destruct (document_hidden _).
    + split; [now apply stop_page | now rewrite stop_particles].
    + split; [now apply start_page | now rewrite start_particles].
  - unfold motion_poll. destruct (checkMotion s); [ | now split].
    destruct (Req_dec_T _ _); [ | now split].
    destruct (isVisible s); [ | now split].
    unfold_setters. split; [now apply destroy_page | ].
    destruct (destroy_effect s) as (-> & _). constructor.
  - split; [now apply destroy_page | ].
    destruct (destroy_effect s) as (-> & _). constructor.
  - split; [now apply start_page | now rewrite start_particles].
  - split; [now apply stop_page | now rewrite stop_particles].
  - split; [now apply destroy_page | ].
    destruct (destroy_effect s) as (-> & _). constructor.
  - now apply reinit_in_canvas.
  - unfold setConfig, reinit. now apply reinit_in_canvas.
  - now split.
  - split; [ | exact Hc]. destruct Hp as (Hr & _). destruct He as [Hw Hh].
    unfold page_ok, container_rect. unfold_setters.
    split; [exact Hr | split; assumption].
  - destruct (motionUtils (platform s)); now split.
Qed.

(** X3: every particle of every state the script reaches on a well-behaved
    page lies on its canvas. *)
Lemma reachable_in_canvas (pf : Platform) (s0 : State) (evs : list Event) :
  page_ok pf -> load pf = Some s0 -> Forall event_ok evs ->
  Forall in_canvas (particles (run evs s0)).
Proof.
  intros Hpf Hl Hev.
  assert (H0 : page_ok (platform s0) /\ Forall in_canvas (particles s0)).
  { revert Hl. unfold load. destruct (container pf) eqn:Ec; [ | discriminate].
    cbv zeta. destruct (Req_dec_T _ _); [discriminate | ]. intros [= <-].
    match goal with |- context [init ?s] => set (st := s) end.
    destruct (init_in_canvas st Hpf) as [Hp Hc].
    split; [now apply start_page | now rewrite start_particles]. }
  clear Hl. revert s0 H0. unfold run.
  induction Hev as [|e evs He Hevs IH]; intros s0 H0; cbn [fold_left].
  - apply H0.
  - apply IH. now apply step_in_canvas.
Qed.
(** ** The motion scale is read once, when the script runs *)

Lemma start_motionScale (s : State) : motionScale (start s) = motionScale s.
Proof. unfold start. destruct (truthy _); reflexivity. Qed.

Lemma stop_motionScale (s : State) : motionScale (stop s) = motionScale s.
Proof.
  unfold stop. destruct (animationFrame s); [ | reflexivity].
  destruct (truthy _); reflexivity.
Qed.

Lemma destroy_motionScale (s : State) : motionScale (destroy s) = motionScale s.
Proof.
  unfold destroy. cbv zeta. destruct (canvas_parentNode _); unfold_setters;
    apply stop_motionScale.
Qed.

Lemma init_motionScale (s : State) : motionScale (init s) = motionScale s.
Proof. apply init_lifecycle. Qed.

Lemma animate_motionScale (t : R) (s : State) :
  motionScale (animate t s) = motionScale s.
Proof. unfold animate. destruct (isVisible s); reflexivity. Qed.

Lemma step_motionScale (e : Event) (s : State) :
  motionScale (step e s) = motionScale s.
Proof.
  destruct e; cbn [step].
  - unfold deliver_frame. destruct (raf_pending _); [reflexivity | ].
    now rewrite animate_motionScale.
  - now rewrite start_motionScale, init_motionScale, stop_motionScale.
  - unfold on_visibilitychange. cbv zeta. destruct (document_hidden _).
    + now rewrite stop_motionScale.
    + now rewrite start_motionScale.
  - unfold motion_poll. destruct (checkMotion s); [ | reflexivity].
    destruct (Req_dec_T _ _); [ | reflexivity].
    destruct (isVisible s); [ | reflexivity].
    unfold_setters. apply destroy_motionScale.
  - apply destroy_motionScale.
  - apply start_motionScale.
  - apply stop_motionScale.
  - apply destroy_motionScale.
  - unfold reinit. now rewrite start_motionScale, init_motionScale, stop_motionScale.
  - unfold setConfig, reinit.
    now rewrite start_motionScale, init_motionScale, stop_motionScale.
  - reflexivity.
  - reflexivity.
  - destruct (motionUtils _); reflexivity.
Qed.

Lemma run_motionScale (evs : list Event) (s : State) :
  motionScale (run evs s) = motionScale s.
Proof.
  unfold run. revert s. induction evs as [|e evs IH]; intros s; simpl.
  - reflexivity.
  - now rewrite IH, step_motionScale.
Qed.

Lemma load_motionScale (pf : Platform) (s : State) :
  load pf = Some s ->
  motionScale s = getMotionScale_or_1 pf /\ motionScale s <> 0.
Proof.
  unfold load. destruct (container pf); [ | discriminate].
  cbv zeta. destruct (Req_dec_T _ _) as [|Hne]; [discriminate | ].
  intros [= <-]. rewrite start_motionScale, init_motionScale.
  split; [reflexivity | exact Hne].
Qed.

(** C3, as stated, fails: the script runs with the motion scale at 1,
    the scale then drops to 0.5, and the next frame (one 60 fps frame later)
    still moves the particle by [speedX * 1 * 1 = -0.3], from 75 to 74.7,
    not by [speedX * 0.5 * 1]. *)
Lemma motion_scale_change_ignored :
  exists s0 p p',
    load (page 150 100 0.5) = Some s0
    /\ let s := run [MotionScaleChanged 0.5] s0 in
       getMotionScale_or_1 (platform s) = 0.5
       /\ isVisible s = true
       /\ nth_error (particles s) 0 = Some p
       /\ nth_error (particles (run [Frame 16.67] s)) 0 = Some p'
       /\ Particle.x p = 75 /\ Particle.speedX p = -0.3
       /\ Particle.x p' = 74.7
       /\ Particle.x p' - Particle.x p
          <> Particle.speedX p * getMotionScale_or_1 (platform s)
             * deltaTime_of 16.67 (lastFrameTime s).
Proof.
  pose proof small_field_particle as Hp. cbv zeta in Hp.
  set (p := Particle.new default_CONFIG (fun _ => 0.5) 150 100) in *.
  destruct Hp as (Hx & Hy & Hvx & Hvy & Hw & Hh).
  assert (Hdt : deltaTime_of 16.67 0 = 1).
  { replace 16.67 with (0 + 16.67) at 1 by lra. apply deltaTime_one_frame. }
  destruct (animate_particle 16.67
              (set_platform
                 (set_raf_pending []
                    (platform (run [MotionScaleChanged 0.5] small_field)))
                 (run [MotionScaleChanged 0.5] small_field)) 0%nat p)
    as (p' & Hp' & Hf); [reflexivity | reflexivity | ].
  change (forget_connections p'
          = Particle.update 1 (deltaTime_of 16.67 0) p) in Hf.
  rewrite Hdt in Hf.
  assert (Hx' : Particle.x p' = Particle.x (Particle.update 1 1 p))
    by (rewrite <- Hf; reflexivity).
  rewrite update_no_wrap in Hx' by lra.
  exists small_field, p, p'.
  split; [exact load_small_page | ]. cbv zeta.
  split; [reflexivity | ]. split; [reflexivity | ]. split; [reflexivity | ].
  split; [exact Hp' | ].
  change (lastFrameTime (run [MotionScaleChanged 0.5] small_field)) with 0.
  change (getMotionScale_or_1
            (platform (run [MotionScaleChanged 0.5] small_field))) with 0.5.
  rewrite Hdt. repeat split; lra.
Qed.

(** C3, amended: on every tick of a visible closure, each particle is
    moved by [Particle.update] with the motion scale that was read once,
    when the script ran on the page, whatever happened since (changes of
    the motion preference included): when no wrap-around occurs its
    displacement is [velocity * that scale * deltaTime]. *)
Theorem displacement_uses_load_time_scale
  (pf : Platform) (s0 : State) (evs : list Event) (t : R) (i : nat)
  (p : Particle.t) :
  load pf = Some s0 ->
  let s := run evs s0 in
  isVisible s = true ->
  nth_error (particles s) i = Some p ->
  let scale := getMotionScale_or_1 pf in
  let deltaTime := deltaTime_of t (lastFrameTime s) in
  exists p',
    nth_error (particles (animate t s)) i = Some p'
    /\ Particle.x p' = Particle.x (Particle.update scale deltaTime p)
    /\ Particle.y p' = Particle.y (Particle.update scale deltaTime p)
    /\ (0 <= Particle.x p + Particle.speedX p * scale * deltaTime
          <= Particle.canvasWidth p ->
        Particle.x p' - Particle.x p = Particle.speedX p * scale * deltaTime)
    /\ (0 <= Particle.y p + Particle.speedY p * scale * deltaTime
          <= Particle.canvasHeight p ->
        Particle.y p' - Particle.y p = Particle.speedY p * scale * deltaTime).
Proof.
  intros Hl s Hv Hp scale deltaTime.
  destruct (animate_particle t s i p Hv Hp) as (p' & Hp' & Hf).
  assert (Hs : motionScale s = scale).
  { subst s. rewrite run_motionScale. now apply load_motionScale. }
  rewrite Hs in Hf. fold deltaTime in Hf.
  exists p'. split; [exact Hp' | ].
  assert (Hx : Particle.x p' = Particle.x (Particle.update scale deltaTime p))
    by (rewrite <- Hf; reflexivity).
  assert (Hy : Particle.y p' = Particle.y (Particle.update scale deltaTime p))
    by (rewrite <- Hf; reflexivity).
  repeat split; auto.
  - intros Hb. rewrite Hx, update_no_wrap by exact Hb. ring.
  - intros Hb. rewrite Hy, update_no_wrap_y by exact Hb. ring.
Qed.


Lemma displacement_uses_load_time_scale_witness :
  let s := run [MotionScaleChanged 0.5] small_field in
  let p := Particle.new default_CONFIG (fun _ => 0.5) 150 100 in
  let scale := getMotionScale_or_1 (page 150 100 0.5) in
  let deltaTime := deltaTime_of 16.67 (lastFrameTime s) in
  exists p',
    nth_error (particles (animate 16.67 s)) 0 = Some p'
    /\ Particle.x p' = Particle.x (Particle.update scale deltaTime p)
    /\ Particle.y p' = Particle.y (Particle.update scale deltaTime p)
    /\ (0 <= Particle.x p + Particle.speedX p * scale * deltaTime
          <= Particle.canvasWidth p ->
        Particle.x p' - Particle.x p = Particle.speedX p * scale * deltaTime)
    /\ (0 <= Particle.y p + Particle.speedY p * scale * deltaTime
          <= Particle.canvasHeight p ->
        Particle.y p' - Particle.y p = Particle.speedY p * scale * deltaTime).
Proof.
  apply (displacement_uses_load_time_scale
           (page 150 100 0.5) small_field [MotionScaleChanged 0.5] 16.67 0%nat
           (Particle.new default_CONFIG (fun _ => 0.5) 150 100)).
  - apply load_small_page.
  - reflexivity.
  - reflexivity.
Defined.

(** ** Distances *)

Lemma getDistance_lt (x1 y1 x2 y2 m : R) :
  0 <= m ->
  (x2 - x1) * (x2 - x1) + (y2 - y1) * (y2 - y1) < m * m ->
  ltR (getDistance x1 y1 x2 y2) m = true.
Proof.
  intros Hm H. apply ltR_true. unfold getDistance. cbv zeta.
  rewrite <- (sqrt_square m Hm). apply sqrt_lt_1_alt. split; [ | exact H].
  apply Rplus_le_le_0_compat; apply Rle_0_sqr.
Qed.

Lemma getDistance_ge (x1 y1 x2 y2 m : R) :
  0 <= m ->
  m * m <= (x2 - x1) * (x2 - x1) + (y2 - y1) * (y2 - y1) ->
  ltR (getDistance x1 y1 x2 y2) m = false.
Proof.
  intros Hm H. apply ltR_false. unfold getDistance. cbv zeta.
  rewrite <- (sqrt_square m Hm) at 1. apply sqrt_le_1_alt. exact H.
Qed.

Lemma getDistance_horizontal (x1 x2 y0 : R) :
  x1 <= x2 -> getDistance x1 y0 x2 y0 = x2 - x1.
Proof.
  intros H. unfold getDistance. cbv zeta.
  replace ((x2 - x1) * (x2 - x1) + (y0 - y0) * (y0 - y0))
    with ((x2 - x1) * (x2 - x1)) by ring.
  apply sqrt_square. lra.
Qed.

(** Settle the comparisons of a pass on given coordinates. *)
Ltac decide_tests :=
  repeat match goal with
  | |- context [ltR (getDistance ?a ?b ?c ?d) ?m] =>
      first [ rewrite (getDistance_lt a b c d m) by lra
            | rewrite (getDistance_ge a b c d m) by lra ]
  | |- context [ltR ?a ?b] =>
      first [ rewrite (ltR_true a b) by lra
            | rewrite (ltR_false a b) by lra ]
  end.

Ltac run_pass :=
  unfold drawConnections_pass, for_loop;
  repeat (cbn; decide_tests).

(** ** The connection pass on given particles *)

(** C8: with exactly two particles, at (0,0) and (50,0), counters at 0 as
    [update] leaves them, [connectionDistance = 120] and
    [maxConnections = 3], the connection pass draws exactly one edge,
    between the two, with stroke alpha [lineColor.a * (1 - 50/120)]. *)
Theorem two_particles_one_edge (s : State) (p q : Particle.t) :
  particles s = [p; q] ->
  Particle.x p = 0 -> Particle.y p = 0 ->
  Particle.x q = 50 -> Particle.y q = 0 ->
  Particle.connections p = 0%Z -> Particle.connections q = 0%Z ->
  connectionDistance (CONFIG s) = 120 ->
  maxConnections (CONFIG s) = 3%Z ->
  ctx_log (drawConnections s)
  = ctx_log s ++
    [StrokeLine
       (line_style (CONFIG s)
          (Color.a (lineColor (CONFIG s)) * (1 - 50 / 120)))
       1 0 0 50 0]
  /\ particles (drawConnections s) = [incr_connections p; incr_connections q].
Proof.
  intros Hps Hpx Hpy Hqx Hqy Hpc Hqc Hd Hm.
  destruct s as [cfg ms cw ch cp log ps af vis lft cm pf].
  destruct p as [pw ph px py psz pvx pvy po pc].
  destruct q as [qw qh qx qy qsz qvx qvy qo qc].
  cbn [particles CONFIG ctx_log Particle.x Particle.y Particle.connections] in *.
  subst ps px py qx qy pc qc.
  unfold drawConnections. cbv zeta.
  cbn [particles CONFIG ctx_log set_ctx_log set_particles].
  assert (E : drawConnections_pass cfg
                ([Particle.mk pw ph 0 0 psz pvx pvy po 0;
                  Particle.mk qw qh 50 0 qsz qvx qvy qo 0], log)
              = ([Particle.mk pw ph 0 0 psz pvx pvy po 1;
                  Particle.mk qw qh 50 0 qsz qvx qvy qo 1],
                 log ++ [StrokeLine
                           (line_style cfg
                              (Color.a (lineColor cfg) * (1 - 50 / 120)))
                           1 0 0 50 0])).
  { unfold drawConnections_pass, for_loop.
    cbn. rewrite Hm, Hd. cbn.
    rewrite getDistance_horizontal by lra.
    rewrite ltR_true by lra. cbn. rewrite Hm. cbn.
    unfold line_style. repeat f_equal. lra. }
  rewrite E. split; reflexivity.
Qed.

Lemma two_particles_one_edge_witness :
  let s := running default_CONFIG [dot 0 0 0; dot 50 0 0] in
  ctx_log (drawConnections s)
  = ctx_log s ++
    [StrokeLine
       (line_style (CONFIG s)
          (Color.a (lineColor (CONFIG s)) * (1 - 50 / 120)))
       1 0 0 50 0]
  /\ particles (drawConnections s)
     = [incr_connections (dot 0 0 0); incr_connections (dot 50 0 0)].
Proof.
  apply (two_particles_one_edge
           (running default_CONFIG [dot 0 0 0; dot 50 0 0])
           (dot 0 0 0) (dot 50 0 0)); reflexivity.
Defined.

Lemma update_dot (x0 y0 : R) (c : Z) :
  0 <= x0 + 0.3 <= 800 -> 0 <= y0 <= 600 ->
  Particle.update 1 1 (dot x0 y0 c) = dot (x0 + 0.3) y0 0.
Proof.
  intros Hx Hy. unfold Particle.update, dot, gtR. cbn.
  decide_tests. f_equal; lra.
Qed.

(** C1 on the default configuration ([maxConnections = 3],
    [connectionDistance = 120]): one frame on five particles that lie 10
    apart on a line leaves the counters at 4, 4, 4, 3 and 3.  The outer
    particle's counter is tested once, before the inner loop, and not
    again while the inner loop raises it. *)
Lemma degree_cap_exceeded :
  let s := running default_CONFIG
             [dot 0 0 0; dot 10 0 0; dot 20 0 0; dot 30 0 0; dot 40 0 0] in
  let s' := animate 16.67 s in
  maxConnections (CONFIG s') = 3%Z
  /\ map Particle.connections (particles s') = [4; 4; 4; 3; 3]%Z
  /\ ~ Forall (fun p => (0 <= Particle.connections p
                           <= maxConnections (CONFIG s'))%Z) (particles s').
Proof.
  cbv zeta.
  assert (E : map Particle.connections
                (particles
                   (animate 16.67
                      (running default_CONFIG
                         [dot 0 0 0; dot 10 0 0; dot 20 0 0; dot 30 0 0;
                          dot 40 0 0])))
              = [4; 4; 4; 3; 3]%Z).
  { rewrite animate_visible by reflexivity.
    cbn [running CONFIG motionScale particles lastFrameTime ctx_log
         canvas_width canvas_height].
    replace 16.67 with (0 + 16.67) by lra. rewrite deltaTime_one_frame.
    cbn [map]. rewrite !update_dot by lra.
    run_pass. reflexivity. }
  split; [reflexivity | ]. split; [exact E | ].
  intros HF.
  assert (HF' : Forall (fun c => (0 <= c <= 3)%Z)
                  (map Particle.connections
                     (particles
                        (animate 16.67
                           (running default_CONFIG
                              [dot 0 0 0; dot 10 0 0; dot 20 0 0; dot 30 0 0;
                               dot 40 0 0]))))).
  { apply Forall_map. exact HF. }
  rewrite E in HF'. inversion HF' as [|? ? H4 _]. lia.
Qed.

(** C2 with [maxConnections = 1]: particle 0 at (0,0), particle 1 at
    (100,0), particle 2 at (30,0).  The pass draws the edge from particle 0
    to particle 1, its first neighbour in iteration order, and then also
    the edge from particle 0 to particle 2; particle 0 ends with two
    connections. *)
Lemma first_neighbour_not_exclusive :
  let cfg := Object_assign default_CONFIG (only_maxConnections 1) in
  let s := running cfg [dot 0 0 0; dot 100 0 0; dot 30 0 0] in
  let s' := drawConnections s in
  maxConnections (CONFIG s) = 1%Z
  /\ ctx_log s' =
       [StrokeLine (line_style cfg (0.2 * (1 - 100 / 120))) 1 0 0 100 0;
        StrokeLine (line_style cfg (0.2 * (1 - 30 / 120))) 1 0 0 30 0]
  /\ map Particle.connections (particles s') = [2; 1; 1]%Z.
Proof.
  cbv zeta. split; [reflexivity | ].
  unfold drawConnections. cbv zeta.
  cbn [running CONFIG particles ctx_log set_ctx_log set_particles].
  assert (E : drawConnections_pass
                (Object_assign default_CONFIG (only_maxConnections 1))
                ([dot 0 0 0; dot 100 0 0; dot 30 0 0], [])
              = ([dot 0 0 2; dot 100 0 1; dot 30 0 1],
                 [StrokeLine
                    (line_style (Object_assign default_CONFIG (only_maxConnections 1))
                       (0.2 * (1 - 100 / 120))) 1 0 0 100 0;
                  StrokeLine
                    (line_style (Object_assign default_CONFIG (only_maxConnections 1))
                       (0.2 * (1 - 30 / 120))) 1 0 0 30 0])).
  { run_pass.
    rewrite !getDistance_horizontal by lra.
    unfold line_style, dot, incr_connections; cbn.
    repeat f_equal; lra. }
  rewrite E. split; reflexivity.
Qed.

(** ** The outer particle of the pass is tested once *)

Lemma for_steps_invariant_from {S : Type} (P : S -> Prop)
  (body : nat -> S -> S) (lo : nat) :
  (forall i s, (lo <= i)%nat -> P s -> P (body i s)) ->
  forall k i s, (lo <= i)%nat -> P s -> P (for_steps k i body s).
Proof.
  intros Hbody k. induction k as [|k IH]; intros i s Hi Hs; simpl.
  - exact Hs.
  - apply IH; [lia | ]. now apply Hbody.
Qed.

Lemma nth_error_middle {A : Type} (a : A) (pre suf : list A) (b : A) :
  nth_error (a :: pre ++ b :: suf) (1 + length pre) = Some b.
Proof.
  cbn [Nat.add nth_error]. rewrite nth_error_app2 by lia.
  now rewrite Nat.sub_diag.
Qed.

Lemma modify_nth_middle {A : Type} (f : A -> A) (a : A) (pre suf : list A) (b : A) :
  modify_nth (1 + length pre) f (a :: pre ++ b :: suf) = a :: pre ++ f b :: suf.
Proof.
  cbn [Nat.add modify_nth]. f_equal.
  induction pre as [|c pre IH]; cbn; [reflexivity | now rewrite IH].
Qed.

(** The inner loop of the first outer iteration, from index
    [1 + length pre] on: every particle of [suf] within reach gets an edge
    from the outer particle, whose counter is never looked at. *)
Lemma inner_loop_of_first (cfg : Config) (suf : list Particle.t) :
  (0 < maxConnections cfg)%Z ->
  Forall (fun q => Particle.connections q = 0%Z) suf ->
  forall (p0 : Particle.t) (pre : list Particle.t) (log : list DrawOp),
  exists p0' suf' log',
    for_steps (length suf) (1 + length pre) (drawConnections_inner cfg 0)
      (p0 :: pre ++ suf, log)
    = (p0' :: pre ++ suf', log')
    /\ forget_connections p0' = forget_connections p0
    /\ Particle.connections p0'
       = (Particle.connections p0
          + Z.of_nat (length (filter (within_reach cfg p0) suf)))%Z.
Proof.
  intros Hmax Hsuf. induction Hsuf as [|q suf Hq Hsuf IH]; intros p0 pre log.
  - exists p0, [], log. cbn. repeat split; lia.
  - cbn [length for_steps].
    unfold drawConnections_inner at 2. cbv zeta. cbn [fst snd].
    rewrite nth_error_middle. cbn [nth_error].
    rewrite Hq.
    destruct (Z.geb_spec 0 (maxConnections cfg)) as [Hge|_]; [lia | ].
    cbn [filter]. fold (within_reach cfg p0 q).
    destruct (within_reach cfg p0 q) eqn:Hnear.
    + cbn [modify_nth]. rewrite modify_nth_middle.
      replace (1 + length pre + 1)%nat with (1 + length (pre ++ [incr_connections q]))%nat
        by (rewrite length_app; cbn; lia).
      replace (pre ++ incr_connections q :: suf)
        with ((pre ++ [incr_connections q]) ++ suf)
        by (rewrite <- app_assoc; reflexivity).
      destruct (IH (incr_connections p0) (pre ++ [incr_connections q])
                  (log ++
                   [StrokeLine
                      {| red := Color.r (lineColor cfg);
                         green := Color.g (lineColor cfg);
                         blue := Color.b (lineColor cfg);
                         alpha :=
                           Color.a (lineColor cfg)
                           * (1 - getDistance (Particle.x p0) (Particle.y p0)
                                    (Particle.x q) (Particle.y q)
                                  / connectionDistance cfg) |}
                      1 (Particle.x p0) (Particle.y p0)
                      (Particle.x q) (Particle.y q)]))
        as (p0' & suf' & log' & E & Hf & Hc).
      exists p0', (incr_connections q :: suf'), log'.
      split; [rewrite E; now rewrite <- app_assoc | ].
      split; [rewrite Hf; reflexivity | ].
      rewrite Hc. cbn [incr_connections Particle.connections length].
      assert (Hsame : filter (within_reach cfg (incr_connections p0)) suf
                      = filter (within_reach cfg p0) suf) by reflexivity.
      rewrite Hsame. lia.
    + replace (1 + length pre + 1)%nat with (1 + length (pre ++ [q]))%nat
        by (rewrite length_app; cbn; lia).
      replace (pre ++ q :: suf) with ((pre ++ [q]) ++ suf)
        by (rewrite <- app_assoc; reflexivity).
      destruct (IH p0 (pre ++ [q]) log) as (p0' & suf' & log' & E & Hf & Hc).
      exists p0', (q :: suf'), log'.
      split; [rewrite E; now rewrite <- app_assoc | ].
      split; [exact Hf | exact Hc].
Qed.

Lemma modify_nth_head {A : Type} (f : A -> A) (k : nat) (a : A) (l : list A) :
  (1 <= k)%nat -> hd_error (modify_nth k f (a :: l)) = Some a.
Proof. intros Hk. destruct k; [lia | reflexivity]. Qed.

(** Later outer iterations leave particle 0 alone. *)
Lemma later_iterations_keep_head (cfg : Config) (p0 : Particle.t) (k i : nat)
  (st : list Particle.t * list DrawOp) :
  (1 <= i)%nat ->
  hd_error (fst st) = Some p0 ->
  hd_error (fst (for_steps k i (drawConnections_outer cfg) st)) = Some p0.
Proof.
  intros Hi H0.
  apply (for_steps_invariant_from
           (fun st => hd_error (fst st) = Some p0) _ 1%nat);
    [ | exact Hi | exact H0].
  clear i st Hi H0. intros i st Hi Hst. unfold drawConnections_outer.
  destruct (nth_error (fst st) i) as [p1|]; [ | exact Hst].
  destruct (Particle.connections p1 >=? maxConnections cfg)%Z; [exact Hst | ].
  unfold for_loop.
  apply (for_steps_invariant_from
           (fun st => hd_error (fst st) = Some p0) _ (i + 1)%nat);
    [ | lia | exact Hst].
  intros j st' Hj Hst'. unfold drawConnections_inner. cbv zeta.
  destruct (nth_error (fst st') i) as [q1|]; [ | exact Hst'].
  destruct (nth_error (fst st') j) as [q2|]; [ | exact Hst'].
  destruct (Particle.connections q2 >=? maxConnections cfg)%Z; [exact Hst' | ].
  destruct (ltR _ _); [ | exact Hst'].
  cbn [fst]. destruct (fst st') as [|a l]; [discriminate | ].
  cbn [hd_error] in Hst'. injection Hst' as ->.
  destruct i as [|i]; [lia | ]. destruct j as [|j]; [lia | ]. reflexivity.
Qed.

(** X9: a pass entered with every counter at 0 and a positive cap gives
    particle 0 one connection for each later particle within reach,
    however many they are. *)
Lemma first_particle_connects_all (cfg : Config) (p0 : Particle.t)
  (rest : list Particle.t) (log : list DrawOp) :
  (0 < maxConnections cfg)%Z ->
  Particle.connections p0 = 0%Z ->
  Forall (fun q => Particle.connections q = 0%Z) rest ->
  exists p0',
    hd_error (fst (drawConnections_pass cfg (p0 :: rest, log))) = Some p0'
    /\ forget_connections p0' = forget_connections p0
    /\ Particle.connections p0'
       = Z.of_nat (length (filter (within_reach cfg p0) rest)).
Proof.
  intros Hmax H0 Hrest.
  unfold drawConnections_pass, for_loop. cbn [fst length Nat.sub for_steps].
  unfold drawConnections_outer at 2. cbn [fst nth_error]. rewrite H0.
  destruct (Z.geb_spec 0 (maxConnections cfg)) as [Hge|_]; [lia | ].
  unfold for_loop. cbn [length Nat.add Nat.sub].
  rewrite Nat.sub_0_r.
  destruct (inner_loop_of_first cfg rest Hmax Hrest p0 [] log)
    as (p0' & suf' & log' & E & Hf & Hc).
  cbn [length Nat.add app] in E. rewrite E.
  exists p0'. split; [ | split; [exact Hf | rewrite Hc, H0; lia]].
  apply later_iterations_keep_head; [lia | reflexivity].
Qed.

(** * Further properties of the scripts *)

Lemma for_steps_indexed {S : Type} (P : nat -> S -> Prop)
  (body : nat -> S -> S) :
  (forall i s, P i s -> P (i + 1)%nat (body i s)) ->
  forall k i s, P i s -> P (i + k)%nat (for_steps k i body s).
Proof.
  intros Hbody k. induction k as [|k IH]; intros i s Hs; cbn [for_steps].
  - now rewrite Nat.add_0_r.
  - replace (i + Datatypes.S k)%nat with ((i + 1) + k)%nat by lia.
    apply IH, Hbody, Hs.
Qed.

Lemma nth_error_modify_nth {A : Type} (f : A -> A) (k i : nat) (l : list A) :
  nth_error (modify_nth k f l) i
  = if Nat.eqb i k then option_map f (nth_error l i) else nth_error l i.
Proof.
  revert k i. induction l as [|a l IH]; intros [|k] [|i]; simpl; auto.
  destruct (Nat.eqb _ _); reflexivity.
Qed.

Lemma inner_step_bound (cfg : Config) (n i j : nat)
  (st : list Particle.t * list DrawOp) :
  (i < j)%nat ->
  inner_inv cfg n i j st ->
  inner_inv cfg n i (j + 1) (drawConnections_inner cfg i j st).
Proof.
  intros Hij [Hlen H]. unfold drawConnections_inner. cbv zeta.
  assert (Hweak : inner_inv cfg n i (j + 1) st).
  { split; [exact Hlen | ]. intros k p Hk. specialize (H k p Hk).
    destruct (k <? i)%nat; [exact H | ]. destruct (k =? i)%nat; lia. }
  destruct (nth_error (fst st) i) as [p1|] eqn:E1; [ | exact Hweak].
  destruct (nth_error (fst st) j) as [p2|] eqn:E2; [ | exact Hweak].
  destruct (Z.geb_spec (Particle.connections p2) (maxConnections cfg))
    as [_|Hlt]; [exact Hweak | ].
  destruct (ltR _ _); [ | exact Hweak].
  split; cbn [fst].
  - now rewrite !modify_nth_length.
  - intros k p. rewrite !nth_error_modify_nth.
    destruct (Nat.eqb_spec k j) as [->|Hkj].
    + destruct (Nat.eqb_spec j i) as [->|_]; [lia | ].
      rewrite E2. cbn [option_map]. intros [= <-].
      destruct (Nat.ltb_spec j i); [lia | ].
      destruct (Nat.eqb_spec j i); [lia | ].
      cbn [incr_connections Particle.connections]. lia.
    + destruct (Nat.eqb_spec k i) as [->|Hki].
      * rewrite E1. cbn [option_map]. intros [= <-].
        specialize (H i p1 E1). rewrite Nat.ltb_irrefl, Nat.eqb_refl in *.
        cbn [incr_connections Particle.connections]. lia.
      * intros Hk. specialize (H k p Hk).
        destruct (k <? i)%nat; [exact H | ].
        destruct (Nat.eqb_spec k i); [contradiction | exact H].
Qed.

Lemma outer_step_bound (cfg : Config) (n i : nat)
  (st : list Particle.t * list DrawOp) :
  outer_inv cfg n i st ->
  outer_inv cfg n (i + 1) (drawConnections_outer cfg i st).
Proof.
  intros [Hlen H]. unfold drawConnections_outer.
  assert (Hbound : forall k, (maxConnections cfg <= degree_bound cfg n k)%Z).
  { intros k. unfold degree_bound. lia. }
  assert (Hweak : outer_inv cfg n (i + 1) st).
  { split; [exact Hlen | ]. intros k p Hk. specialize (H k p Hk).
    destruct (Nat.ltb_spec k i); destruct (Nat.ltb_spec k (i + 1));
      try lia; try exact H.
    specialize (Hbound k). lia. }
  destruct (nth_error (fst st) i) as [p1|] eqn:E1; [ | exact Hweak].
  destruct (Z.geb_spec (Particle.connections p1) (maxConnections cfg))
    as [_|Hlt]; [exact Hweak | ].
  assert (Hi : (i < n)%nat).
  { rewrite <- Hlen. apply nth_error_Some. congruence. }
  unfold for_loop. rewrite Hlen.
  assert (Hin : (i < i + 1 + (n - (i + 1)))%nat
                /\ inner_inv cfg n i (i + 1 + (n - (i + 1)))
                     (for_steps (n - (i + 1)) (i + 1)
                        (drawConnections_inner cfg i) st)).
  { apply (for_steps_indexed
             (fun j st' => (i < j)%nat /\ inner_inv cfg n i j st')).
    - intros j st' [Hj Hst']. split; [lia | ].
      now apply inner_step_bound.
    - split; [lia | ]. split; [exact Hlen | ].
      intros k p Hk. specialize (H k p Hk).
      destruct (Nat.ltb_spec k i); [exact H | ].
      destruct (Nat.eqb_spec k i) as [->|_]; [ | exact H].
      rewrite E1 in Hk. injection Hk as <-. lia. }
  destruct Hin as [_ [Hlen' Hin]].
  replace (i + 1 + (n - (i + 1)))%nat with n in Hin by lia.
  split; [exact Hlen' | ].
  intros k p Hk. specialize (Hin k p Hk).
  destruct (Nat.ltb_spec k i); destruct (Nat.ltb_spec k (i + 1));
    try lia; try exact Hin.
  - assert (k = i) by lia. subst k. rewrite Nat.eqb_refl in Hin.
    unfold degree_bound. lia.
  - destruct (Nat.eqb_spec k i); [lia | exact Hin].
Qed.

(** The bound the pass keeps: entered with every counter at or below the
    cap, it leaves the counter of the particle at index [k] at or below
    [degree_bound]. *)
Lemma drawConnections_pass_bound (cfg : Config)
  (st : list Particle.t * list DrawOp) :
  Forall (fun p => (Particle.connections p <= maxConnections cfg)%Z) (fst st) ->
  forall k p,
    nth_error (fst (drawConnections_pass cfg st)) k = Some p ->
    (Particle.connections p <= degree_bound cfg (length (fst st)) k)%Z.
Proof.
  intros H0 k p Hk. unfold drawConnections_pass, for_loop in Hk.
  rewrite Nat.sub_0_r in Hk.
  set (n := length (fst st)) in *.
  assert (Hinv : outer_inv cfg n (0 + n)
                   (for_steps n 0 (drawConnections_outer cfg) st)).
  { apply (for_steps_indexed (outer_inv cfg n)).
    - intros i s. apply outer_step_bound.
    - split; [reflexivity | ]. intros k' p' Hk'. cbn [Nat.ltb Nat.leb].
      rewrite Forall_forall in H0. apply H0. eapply nth_error_In, Hk'. }
  destruct Hinv as [Hlen Hinv]. specialize (Hinv k p Hk).
  assert (Hkn : (k < n)%nat).
  { rewrite <- Hlen. apply nth_error_Some. congruence. }
  cbn [Nat.add] in Hinv. destruct (Nat.ltb_spec k n); [exact Hinv | lia].
Qed.

(** X10: after every frame of a visible closure with a non-negative cap, the
    counter of the particle at index [k] among [n] lies between 0 and
    [max(cap, cap + n - 2 - k)]. *)
Theorem frame_degree_bound (t : R) (s : State) (k : nat) (p : Particle.t) :
  isVisible s = true ->
  (0 <= maxConnections (CONFIG s))%Z ->
  nth_error (particles (animate t s)) k = Some p ->
  (0 <= Particle.connections p
   <= degree_bound (CONFIG s) (length (particles s)) k)%Z.
Proof.
  intros Hv Hmax Hk. split.
  - pose proof (animate_connections_nonneg t s Hv) as Hnn.
    rewrite Forall_forall in Hnn. apply Hnn. eapply nth_error_In, Hk.
  - rewrite animate_visible in Hk by exact Hv.
    apply drawConnections_pass_bound in Hk.
    + cbn [fst] in Hk. now rewrite length_map in Hk.
    + cbn [fst]. apply Forall_forall. intros q Hq.
      apply in_map_iff in Hq. destruct Hq as (q0 & <- & _).
      cbn [Particle.update Particle.connections]. exact Hmax.
Qed.

Lemma total_modify_nth (k : nat) (ps : list Particle.t) (p : Particle.t) :
  nth_error ps k = Some p ->
  total_connections (modify_nth k incr_connections ps)
  = (total_connections ps + 1)%Z.
Proof.
  unfold total_connections. revert k.
  induction ps as [|a ps IH]; intros [|k] Hk; cbn in Hk; try discriminate.
  - cbn. lia.
  - cbn [modify_nth map fold_right]. rewrite (IH k Hk). lia.
Qed.

Lemma getDistance_nonneg (x1 y1 x2 y2 : R) : 0 <= getDistance x1 y1 x2 y2.
Proof. unfold getDistance. cbv zeta. apply sqrt_pos. Qed.

(** The fade factor of an edge that is drawn. *)
Lemma fade_factor_range (d m : R) : 0 <= d -> d < m -> 0 < 1 - d / m <= 1.
Proof.
  intros Hd Hm. assert (Hpos : 0 < m) by lra.
  assert (Hq : 0 <= d / m < 1).
  { split.
    - apply Rmult_le_pos; [exact Hd | ]. left. now apply Rinv_0_lt_compat.
    - apply (Rmult_lt_reg_r m); [exact Hpos | ].
      unfold Rdiv. rewrite Rmult_assoc, Rinv_l by lra. lra. }
  lra.
Qed.

Lemma forget_nth (ps qs : list Particle.t) (k : nat) (p : Particle.t) :
  map forget_connections ps = map forget_connections qs ->
  nth_error ps k = Some p ->
  exists q, nth_error qs k = Some q
            /\ forget_connections q = forget_connections p.
Proof.
  intros E Hk.
  assert (H : nth_error (map forget_connections qs) k
              = Some (forget_connections p)).
  { rewrite <- E, nth_error_map, Hk. reflexivity. }
  rewrite nth_error_map in H.
  destruct (nth_error qs k) as [q|]; [ | discriminate].
  exists q. split; [reflexivity | ]. cbn in H. congruence.
Qed.

Lemma inner_pass_inv (cfg : Config) (ps0 : list Particle.t)
  (log0 : list DrawOp) (i j : nat) (st : list Particle.t * list DrawOp) :
  (i < j)%nat ->
  pass_inv cfg ps0 log0 st ->
  pass_inv cfg ps0 log0 (drawConnections_inner cfg i j st).
Proof.
  intros Hij Hinv. unfold drawConnections_inner. cbv zeta.
  destruct (nth_error (fst st) i) as [p1|] eqn:E1; [ | exact Hinv].
  destruct (nth_error (fst st) j) as [p2|] eqn:E2; [ | exact Hinv].
  destruct (Particle.connections p2 >=? maxConnections cfg)%Z; [exact Hinv | ].
  destruct (ltR_spec
              (getDistance (Particle.x p1) (Particle.y p1)
                 (Particle.x p2) (Particle.y p2))
              (connectionDistance cfg)) as [Hnear|_]; [ | exact Hinv].
  destruct Hinv as (Hf & lines & Hlog & Hedges & Halpha & Htot).
  destruct (forget_nth _ _ _ _ Hf E1) as (q1 & Hq1 & Hfq1).
  destruct (forget_nth _ _ _ _ Hf E2) as (q2 & Hq2 & Hfq2).
  assert (Hx1 : Particle.x q1 = Particle.x p1)
    by (change (Particle.x (forget_connections q1)
                = Particle.x (forget_connections p1)); now rewrite Hfq1).
  assert (Hy1 : Particle.y q1 = Particle.y p1)
    by (change (Particle.y (forget_connections q1)
                = Particle.y (forget_connections p1)); now rewrite Hfq1).
  assert (Hx2 : Particle.x q2 = Particle.x p2)
    by (change (Particle.x (forget_connections q2)
                = Particle.x (forget_connections p2)); now rewrite Hfq2).
  assert (Hy2 : Particle.y q2 = Particle.y p2)
    by (change (Particle.y (forget_connections q2)
                = Particle.y (forget_connections p2)); now rewrite Hfq2).
  split; cbn [fst snd].
  - rewrite !modify_nth_map; [exact Hf | reflexivity | reflexivity].
  - eexists (lines ++ [_]). split; [rewrite Hlog, app_assoc; reflexivity | ].
    split; [ | split].
    + apply Forall_app. split; [exact Hedges | ]. constructor; [ | constructor].
      cbn [edge_of]. split; [reflexivity | ].
      exists i, j, q1, q2. rewrite Hx1, Hy1, Hx2, Hy2.
      repeat split; try assumption; try reflexivity.
      unfold within_reach. rewrite Hx1, Hy1, Hx2, Hy2. now apply ltR_true.
    + apply Forall_app. split; [exact Halpha | ]. constructor; [ | constructor].
      cbn [line_alpha_ok alpha]. eexists. split; [ | reflexivity].
      apply fade_factor_range; [apply getDistance_nonneg | exact Hnear].
    + rewrite (total_modify_nth j _ p2).
      * rewrite (total_modify_nth i _ p1 E1). rewrite Htot.
        rewrite length_app. cbn [length]. lia.
      * rewrite nth_error_modify_nth.
        destruct (Nat.eqb_spec j i); [lia | exact E2].
Qed.

Lemma pass_keeps_inv (cfg : Config) (st : list Particle.t * list DrawOp) :
  pass_inv cfg (fst st) (snd st) (drawConnections_pass cfg st).
Proof.
  unfold drawConnections_pass.
  apply (for_loop_invariant (pass_inv cfg (fst st) (snd st))).
  - intros i st' Hst'. unfold drawConnections_outer.
    destruct (nth_error (fst st') i) as [p1|]; [ | exact Hst'].
    destruct (Particle.connections p1 >=? maxConnections cfg)%Z; [exact Hst' | ].
    unfold for_loop.
    apply (for_steps_invariant_from (pass_inv cfg (fst st) (snd st))
             _ (i + 1)%nat); [ | lia | exact Hst'].
    intros j st'' Hj. apply inner_pass_inv. lia.
  - split; [reflexivity | ]. exists []. rewrite app_nil_r.
    repeat split; try constructor. cbn [length]. lia.
Qed.

Lemma animate_log (t : R) (s : State) :
  isVisible s = true ->
  ctx_log (animate t s)
  = snd (drawConnections_pass (CONFIG s)
           (map (Particle.update (motionScale s)
                   (deltaTime_of t (lastFrameTime s))) (particles s),
            (ctx_log s ++ [ClearRect 0 0 (canvas_width s) (canvas_height s)])
            ++ map (Particle.draw (CONFIG s))
                 (map (Particle.update (motionScale s)
                         (deltaTime_of t (lastFrameTime s))) (particles s)))).
Proof.
  intros Hv. unfold animate. rewrite Hv. cbn [negb]. cbv zeta.
  unfold drawConnections, requestAnimationFrame. cbv zeta.
  unfold_setters. reflexivity.
Qed.

Lemma edge_is_line (cfg : Config) (ps : list Particle.t) (lines : list DrawOp) :
  Forall (edge_of cfg ps) lines -> filter is_line lines = lines.
Proof.
  induction 1 as [|op lines Hop _ IH]; [reflexivity | ].
  destruct op; cbn [edge_of] in Hop; try contradiction.
  cbn [filter is_line]. now rewrite IH.
Qed.

Lemma draw_not_line (cfg : Config) (ps : list Particle.t) :
  filter is_line (map (Particle.draw cfg) ps) = [].
Proof. induction ps as [|p ps IH]; [reflexivity | exact IH]. Qed.

Lemma total_after_update (ms dt : R) (ps : list Particle.t) :
  total_connections (map (Particle.update ms dt) ps) = 0%Z.
Proof.
  unfold total_connections. induction ps as [|p ps IH]; [reflexivity | ].
  cbn [map fold_right Particle.update Particle.connections]. rewrite IH. lia.
Qed.

(** X6: the pass touches the counters and the log only; what it appends to
    the log are edges of width 1 between two particles of the array, the
    first at a smaller index, the second within reach of it. *)
Theorem drawConnections_edges_only (s : State) :
  exists ps lines,
    drawConnections s
    = set_ctx_log (ctx_log s ++ lines) (set_particles ps s)
    /\ map forget_connections ps = map forget_connections (particles s)
    /\ Forall (edge_of (CONFIG s) (particles s)) lines.
Proof.
  destruct (pass_keeps_inv (CONFIG s) (particles s, ctx_log s))
    as (Hf & lines & Hlog & Hedges & _).
  cbn [fst snd] in *.
  exists (fst (drawConnections_pass (CONFIG s) (particles s, ctx_log s))), lines.
  split; [ | split; assumption].
  unfold drawConnections. cbv zeta. now rewrite Hlog.
Qed.

(** X7: every edge drawn has a stroke alpha of the configured line alpha
    times a factor of (0, 1]. *)
Theorem drawConnections_alpha_range (s : State) :
  exists lines,
    ctx_log (drawConnections s) = ctx_log s ++ lines
    /\ Forall (line_alpha_ok (CONFIG s)) lines.
Proof.
  destruct (pass_keeps_inv (CONFIG s) (particles s, ctx_log s))
    as (_ & lines & Hlog & _ & Halpha & _).
  cbn [fst snd] in *. exists lines. split; [ | exact Halpha].
  unfold drawConnections. cbv zeta. unfold_setters. exact Hlog.
Qed.

(** X11: after a frame, the counters add up to twice the number of edges the
    frame drew. *)
Theorem frame_handshake (t : R) (s : State) :
  isVisible s = true ->
  total_connections (particles (animate t s))
  = (2 * (Z.of_nat (count_lines (ctx_log (animate t s)))
          - Z.of_nat (count_lines (ctx_log s))))%Z.
Proof.
  intros Hv. rewrite animate_visible, animate_log by exact Hv.
  match goal with
  | |- context [drawConnections_pass ?c ?st] =>
      destruct (pass_keeps_inv c st) as (_ & lines & Hlog & Hedges & _ & Htot)
  end.
  cbn [fst snd] in *. rewrite Htot, Hlog, total_after_update.
  unfold count_lines. rewrite !filter_app, !length_app.
  rewrite (edge_is_line _ _ _ Hedges), draw_not_line. cbn [filter is_line length].
  lia.
Qed.

(** X12: what a frame draws, in order: one clear of the whole canvas, one
    disc per particle at its updated position, then edges only. *)
Theorem frame_drawing_order (t : R) (s : State) :
  isVisible s = true ->
  let ps := map (Particle.update (motionScale s)
                   (deltaTime_of t (lastFrameTime s))) (particles s) in
  exists lines,
    ctx_log (animate t s)
    = ctx_log s
      ++ ClearRect 0 0 (canvas_width s) (canvas_height s)
         :: map (Particle.draw (CONFIG s)) ps ++ lines
    /\ Forall (edge_of (CONFIG s) ps) lines
    /\ getParticleCount (animate t s) = getParticleCount s
    /\ lastFrameTime (animate t s) = t.
Proof.
  intros Hv ps. rewrite animate_log by exact Hv. fold ps.
  match goal with
  | |- context [drawConnections_pass ?c ?st] =>
      destruct (pass_keeps_inv c st) as (Hf & lines & Hlog & Hedges & _)
  end.
  cbn [fst snd] in *. exists lines. split; [ | split; [exact Hedges | split]].
  - rewrite Hlog. rewrite <- !app_assoc. reflexivity.
  - unfold getParticleCount.
    rewrite <- (length_map forget_connections), (animate_bodies t s Hv).
    now rewrite length_map.
  - unfold animate. rewrite Hv. cbn [negb]. cbv zeta.
    unfold drawConnections, requestAnimationFrame. cbv zeta. reflexivity.
Qed.

(** X8: the pass draws nothing and changes nothing when the cap is 0 or
    less (counters being 0 or more), when [connectionDistance] is 0 or
    less, or when there are fewer than two particles. *)
Theorem drawConnections_pass_idle (cfg : Config)
  (st : list Particle.t * list DrawOp) :
  ((maxConnections cfg <= 0)%Z
   /\ Forall (fun p => (0 <= Particle.connections p)%Z) (fst st))
  \/ connectionDistance cfg <= 0
  \/ (length (fst st) < 2)%nat ->
  drawConnections_pass cfg st = st.
Proof.
  intros [[Hmax Hnn] | [Hd | Hlen]]; unfold drawConnections_pass.
  - apply (for_loop_invariant (fun st' => st' = st)); [ | reflexivity].
    intros i st' ->. unfold drawConnections_outer.
    destruct (nth_error (fst st) i) as [p1|] eqn:E; [ | reflexivity].
    rewrite Forall_forall in Hnn.
    pose proof (Hnn p1 (nth_error_In _ _ E)) as Hp.
    destruct (Z.geb_spec (Particle.connections p1) (maxConnections cfg));
      [reflexivity | lia].
  - apply (for_loop_invariant (fun st' => st' = st)); [ | reflexivity].
    intros i st' ->. unfold drawConnections_outer.
    destruct (nth_error (fst st) i) as [p1|]; [ | reflexivity].
    destruct (_ >=? _)%Z; [reflexivity | ].
    apply (for_loop_invariant (fun st' => st' = st)); [ | reflexivity].
    intros j st' ->. unfold drawConnections_inner. cbv zeta.
    destruct (nth_error (fst st) i) as [q1|]; [ | reflexivity].
    destruct (nth_error (fst st) j) as [q2|]; [ | reflexivity].
    destruct (_ >=? _)%Z; [reflexivity | ].
    rewrite ltR_false; [reflexivity | ].
    pose proof (getDistance_nonneg (Particle.x q1) (Particle.y q1)
                  (Particle.x q2) (Particle.y q2)). lra.
  - destruct st as [[|p [|q ps]] log]; cbn [fst length] in *; try lia.
    + reflexivity.
    + unfold for_loop. cbn [Nat.sub for_steps].
      unfold drawConnections_outer. cbn [fst nth_error length].
      destruct (_ >=? _)%Z; reflexivity.
Qed.

Lemma drawConnections_pass_idle_witness :
  drawConnections_pass (Object_assign default_CONFIG (only_maxConnections 0))
    ([dot 0 0 0; dot 10 0 0], [])
  = ([dot 0 0 0; dot 10 0 0], []).
Proof.
  apply (drawConnections_pass_idle
           (Object_assign default_CONFIG (only_maxConnections 0))
           ([dot 0 0 0; dot 10 0 0], [])).
  left. split; [simpl; lia | ].
  repeat constructor; simpl; lia.
Defined.

(** X14: in every state the script reaches, at most one frame callback is
    pending; it is the one whose handle [animationFrame] keeps, and
    [isVisible] is true exactly when there is one. *)
Theorem one_pending_frame (s : State) :
  reachable s ->
  match raf_pending (platform s) with
  | [] => animationFrame s = None /\ isVisible s = false
  | [h] => animationFrame s = Some h /\ isVisible s = true /\ h <> 0%Z
  | _ => False
  end.
Proof.
  intros Hr. destruct (reachable_inv s Hr) as [Hn H].
  destruct (animationFrame s) as [h|].
  - destruct H as (Hh & Hv & ->). repeat split; auto. lia.
  - destruct H as (Hv & ->). auto.
Qed.

Lemma one_pending_frame_witness :
  match raf_pending (platform small_field) with
  | [] => animationFrame small_field = None /\ isVisible small_field = false
  | [h] => animationFrame small_field = Some h
           /\ isVisible small_field = true /\ h <> 0%Z
  | _ => False
  end.
Proof.
  apply (one_pending_frame small_field). apply small_field_reachable.
Defined.

(** X1: what the script does when it runs.  With no container, or with a
    motion scale of exactly 0, it returns at once and exposes nothing.
    Otherwise (motion utilities absent counts as scale 1) it ends with the
    default configuration, the scale kept, the canvas attached, the loop
    started with one more callback scheduled, and as many particles as
    the density formula gives. *)
Theorem load_outcome (pf : Platform) :
  (container pf = None \/ getMotionScale_or_1 pf = 0 -> load pf = None)
  /\ (forall w h,
        container pf = Some (w, h) -> getMotionScale_or_1 pf <> 0 ->
        exists s,
          load pf = Some s
          /\ CONFIG s = default_CONFIG
          /\ motionScale s = getMotionScale_or_1 pf
          /\ canvas_parentNode s = true
          /\ isVisible s = true
          /\ lastFrameTime s = Date_now pf
          /\ animationFrame s = Some (raf_next pf)
          /\ raf_pending (platform s) = raf_pending pf ++ [raf_next pf]
          /\ getParticleCount s
             = Z.to_nat (Z.min (Math_floor (w * h / 15000)) 50)).
Proof.
  split.
  - intros [Hc | Hm]; unfold load.
    + now rewrite Hc.
    + destruct (container pf); [ | reflexivity].
      cbv zeta. destruct (Req_dec_T _ _); [reflexivity | contradiction].
  - intros w h Hc Hm. unfold load. rewrite Hc. cbv zeta.
    destruct (Req_dec_T _ _) as [|_]; [contradiction | ].
    eexists. split; [reflexivity | ].
    match goal with |- context [init ?s0] => set (st := s0) end.
    pose proof (init_particle_count st) as Hcount.
    destruct (init_lifecycle st) as (Ha & Hv & Hn & Hp & Hms & _).
    assert (Hcfg : CONFIG (init st) = default_CONFIG).
    { unfold init, resizeCanvas. cbv zeta.
      destruct (for_loop _ _ _ _). reflexivity. }
    assert (Hcp : canvas_parentNode (init st) = true).
    { unfold init, resizeCanvas. cbv zeta.
      destruct (for_loop _ _ _ _). reflexivity. }
    assert (Hnow : Date_now (platform (init st)) = Date_now pf).
    { unfold init, resizeCanvas. cbv zeta.
      destruct (for_loop _ _ _ _). reflexivity. }
    rewrite start_when_stopped by (rewrite Ha; reflexivity).
    unfold_setters. rewrite Hn, Hp, Hnow, Hms, Hcfg, Hcp.
    unfold getParticleCount. unfold_setters. rewrite Hcount.
    subst st. unfold container_rect. unfold_setters. rewrite Hc.
    repeat split.
Qed.

Lemma reachable_step (e : Event) (s : State) :
  reachable s -> reachable (step e s).
Proof.
  intros (pf & s0 & evs & Hn & Hp & Hl & ->).
  exists pf, s0, (evs ++ [e]). repeat split; auto.
  unfold run. now rewrite fold_left_app.
Qed.

Lemma reachable_run (evs : list Event) (s : State) :
  reachable s -> reachable (run evs s).
Proof.
  intros (pf & s0 & evs0 & Hn & Hp & Hl & ->).
  exists pf, s0, (evs0 ++ evs). repeat split; auto.
  unfold run. now rewrite fold_left_app.
Qed.

Lemma frames_when_idle (ts : list R) (s : State) :
  raf_pending (platform s) = [] -> run (map Frame ts) s = s.
Proof.
  intros Hp. induction ts as [|t ts IH]; [reflexivity | ].
  cbn [map]. unfold run. cbn [fold_left step]. unfold deliver_frame.
  rewrite Hp. exact IH.
Qed.

Lemma stop_when_running (s : State) :
  lifecycle_inv s ->
  animationFrame (stop s) = None
  /\ raf_pending (platform (stop s)) = []
  /\ Date_now (platform (stop s)) = Date_now (platform s).
Proof.
  intros [Hn H]. unfold stop.
  destruct (animationFrame s) as [h|] eqn:E.
  - destruct H as (Hh & _ & Hp). rewrite truthy_pos by lia. unfold_setters.
    rewrite Hp. cbn [filter]. rewrite Z.eqb_refl. auto.
  - destruct H as (_ & Hp). unfold_setters. rewrite E. auto.
Qed.

(** X15: hiding the tab pauses the simulation and showing it resumes it.
    Once hidden, no callback is pending and frames change nothing; on
    return, at a later time [t'], the particles are as they were, one
    callback is pending and [lastFrameTime] is [t']: the time spent hidden
    is not integrated. *)
Theorem hidden_tab_pauses (s : State) (t' : R) :
  reachable s ->
  let h := step (VisibilityChange true) s in
  let r := step (VisibilityChange false) (step (ClockAdvance t') h) in
  raf_pending (platform h) = []
  /\ particles h = particles s
  /\ (forall ts, run (map Frame ts) h = h)
  /\ particles r = particles s
  /\ length (raf_pending (platform r)) = 1%nat
  /\ isVisible r = true
  /\ lastFrameTime r = t'.
Proof.
  intros Hr. cbv zeta. cbn [step]. unfold on_visibilitychange. cbv zeta.
  unfold_setters.
  set (s1 := set_platform (set_document_hidden true (platform s)) s).
  assert (H1 : lifecycle_inv s1).
  { apply (lifecycle_inv_irrelevant s); try reflexivity.
    now apply reachable_inv. }
  destruct (stop_when_running s1 H1) as (Ha & Hp & Hnow).
  set (h := stop s1) in *.
  assert (Hph : particles h = particles s) by apply (stop_particles s1).
  split; [exact Hp | ]. split; [exact Hph | ].
  split; [intros ts; now apply frames_when_idle | ].
  rewrite start_when_stopped by (unfold_setters; rewrite Ha; reflexivity).
  unfold_setters. rewrite Hp, Hph. repeat split.
Qed.

Lemma hidden_tab_pauses_witness :
  let h := step (VisibilityChange true) small_field in
  let r := step (VisibilityChange false) (step (ClockAdvance 5000) h) in
  raf_pending (platform h) = []
  /\ particles h = particles small_field
  /\ (forall ts, run (map Frame ts) h = h)
  /\ particles r = particles small_field
  /\ length (raf_pending (platform r)) = 1%nat
  /\ isVisible r = true
  /\ lastFrameTime r = 5000.
Proof.
  apply (hidden_tab_pauses small_field 5000). apply small_field_reachable.
Defined.

(** X16: [destroy()] is idempotent and absorbs [stop()], in any state. *)
Theorem destroy_idempotent (s : State) :
  destroy (destroy s) = destroy s
  /\ stop (destroy s) = destroy s
  /\ destroy (stop s) = destroy s.
Proof.
  destruct s as [cfg ms cw ch cp log ps af vis lft cm pf].
  unfold destroy, stop. unfold_setters.
  destruct af as [h|]; cbn [truthy].
  - destruct (negb (h =? 0)%Z) eqn:T; unfold_setters; cbn [truthy];
      try rewrite T; destruct cp; unfold_setters; cbn [truthy];
      try rewrite T; repeat split; reflexivity.
  - destruct cp; unfold_setters; repeat split; reflexivity.
Qed.

Lemma step_keeps_detached (e : Event) (s : State) :
  canvas_parentNode s = false -> canvas_parentNode (step e s) = false.
Proof.
  assert (Hstart : forall s', canvas_parentNode (start s') = canvas_parentNode s').
  { intros s'. unfold start. destruct (truthy _); reflexivity. }
  assert (Hstop : forall s', canvas_parentNode (stop s') = canvas_parentNode s').
  { intros s'. unfold stop. destruct (animationFrame s'); [ | reflexivity].
    destruct (truthy _); reflexivity. }
  assert (Hinit : forall s', canvas_parentNode (init s') = canvas_parentNode s').
  { intros s'. unfold init, resizeCanvas. cbv zeta.
    destruct (for_loop _ _ _ _). reflexivity. }
  assert (Hdestroy : forall s', canvas_parentNode (destroy s') = false).
  { intros s'. apply destroy_effect. }
  assert (Hanimate : forall t s',
            canvas_parentNode (animate t s') = canvas_parentNode s').
  { intros t s'. unfold animate. destruct (isVisible s'); reflexivity. }
  intros H. destruct e; cbn [step].
  - unfold deliver_frame. destruct (raf_pending _); [exact H | ].
    now rewrite Hanimate.
  - now rewrite Hstart, Hinit, Hstop.
  - unfold on_visibilitychange. cbv zeta.
    destruct (document_hidden _); [now rewrite Hstop | now rewrite Hstart].
  - unfold motion_poll. destruct (checkMotion s); [ | exact H].
    destruct (Req_dec_T _ _); [ | exact H].
    destruct (isVisible s); [ | exact H]. unfold_setters. apply Hdestroy.
  - apply Hdestroy.
  - now rewrite Hstart.
  - now rewrite Hstop.
  - apply Hdestroy.
  - unfold reinit. now rewrite Hstart, Hinit, Hstop.
  - unfold setConfig, reinit. now rewrite Hstart, Hinit, Hstop.
  - exact H.
  - exact H.
  - destruct (motionUtils _); exact H.
Qed.

Lemma step_keeps_empty (e : Event) (s : State) :
  no_reinit e = true -> particles s = [] -> particles (step e s) = [].
Proof.
  intros He H. destruct e; cbn [step]; try discriminate He.
  - now apply deliver_frame_no_particles.
  - unfold on_visibilitychange. cbv zeta.
    destruct (document_hidden _);
      [now rewrite stop_particles | now rewrite start_particles].
  - unfold motion_poll. destruct (checkMotion s); [ | exact H].
    destruct (Req_dec_T _ _); [ | exact H].
    destruct (isVisible s); [ | exact H]. unfold_setters. apply destroy_effect.
  - apply destroy_effect.
  - now rewrite start_particles.
  - now rewrite stop_particles.
  - apply destroy_effect.
  - exact H.
  - exact H.
  - destruct (motionUtils _); exact H.
Qed.

Lemma run_keeps_detached (evs : list Event) (s : State) :
  canvas_parentNode s = false -> canvas_parentNode (run evs s) = false.
Proof.
  unfold run. revert s. induction evs as [|e evs IH]; intros s H; [exact H | ].
  cbn [fold_left]. apply IH. now apply step_keeps_detached.
Qed.

Lemma run_keeps_empty (evs : list Event) (s : State) :
  forallb no_reinit evs = true ->
  particles s = [] -> particles (run evs s) = [].
Proof.
  unfold run. revert s. induction evs as [|e evs IH]; intros s He H; [exact H | ].
  cbn [forallb] in He. apply andb_prop in He. destruct He as [He Hevs].
  cbn [fold_left]. apply IH; [exact Hevs | ]. now apply step_keeps_empty.
Qed.

(** X17: nothing re-attaches the canvas.  After [destroy()], whatever
    callbacks and API calls follow, the canvas stays out of the page; and
    as long as none of them runs [init] again (resize, [reinit],
    [setConfig]) the particle array stays empty, also when the motion
    preference is switched back on. *)
Theorem destroy_is_one_way (s : State) (evs : list Event) :
  canvas_parentNode (run evs (destroy s)) = false
  /\ (forallb no_reinit evs = true ->
      getParticleCount (run evs (destroy s)) = 0%nat).
Proof.
  destruct (destroy_effect s) as (Hp & _ & _ & Hc & _). split.
  - now apply run_keeps_detached.
  - intros He. unfold getParticleCount. now rewrite run_keeps_empty.
Qed.

Lemma destroy_is_one_way_witness :
  getParticleCount
    (run [MotionScaleChanged 1; MotionPoll; VisibilityChange false; Frame 20]
       (destroy small_field)) = 0%nat.
Proof.
  apply (destroy_is_one_way small_field
           [MotionScaleChanged 1; MotionPoll; VisibilityChange false; Frame 20]).
  reflexivity.
Defined.

(** X19: the zero-motion poll.  In a reachable, visible state whose poll is
    still active, a poll that finds the motion scale at exactly 0 destroys
    the field (no particles, canvas detached, no callback pending) and
    switches itself off; a poll that finds any other scale, or runs while
    the closure is not visible, changes nothing. *)
Theorem motion_poll_outcome (s : State) :
  reachable s ->
  checkMotion s = true ->
  (getMotionScale_or_1 (platform s) = 0 -> isVisible s = true ->
     let d := step MotionPoll s in
     getParticleCount d = 0%nat
     /\ canvas_parentNode d = false
     /\ raf_pending (platform d) = []
     /\ checkMotion d = false
     /\ step MotionPoll d = d)
  /\ (getMotionScale_or_1 (platform s) <> 0 \/ isVisible s = false ->
      step MotionPoll s = s).
Proof.
  intros Hr Hc. split.
  - intros H0 Hv. cbv zeta. cbn [step]. unfold motion_poll.
    rewrite Hc, Hv. destruct (Req_dec_T _ _) as [_|Hne]; [ | contradiction].
    destruct (destroy_effect s) as (Hp & _ & _ & Hcp & Hpf).
    unfold getParticleCount. unfold_setters. rewrite Hp, Hcp, Hpf.
    destruct (stop_when_running s (reachable_inv s Hr)) as (_ & Hpend & _).
    rewrite Hpend. repeat split.
  - intros H. cbn [step]. unfold motion_poll. rewrite Hc.
    destruct (Req_dec_T _ _) as [E|_]; [ | reflexivity].
    destruct H as [H|H]; [contradiction | ]. now rewrite H.
Qed.

Lemma stop_keeps (s : State) :
  CONFIG (stop s) = CONFIG s
  /\ canvas_parentNode (stop s) = canvas_parentNode s
  /\ container (platform (stop s)) = container (platform s)
  /\ raf_next (platform (stop s)) = raf_next (platform s).
Proof.
  unfold stop. destruct (animationFrame s); [ | repeat split].
  destruct (truthy _); repeat split.
Qed.

Lemma init_keeps (s : State) :
  CONFIG (init s) = CONFIG s
  /\ canvas_parentNode (init s) = canvas_parentNode s
  /\ Date_now (platform (init s)) = Date_now (platform s)
  /\ container (platform (init s)) = container (platform s).
Proof.
  unfold init, resizeCanvas. cbv zeta.
  destruct (for_loop _ _ _ _). repeat split.
Qed.

(** [stop(); init(); start()], as run by the resize handler, [reinit()]
    and [setConfig()]. *)
Lemma reinit_effect (s : State) :
  lifecycle_inv s ->
  let r := start (init (stop s)) in
  CONFIG r = CONFIG s
  /\ canvas_parentNode r = canvas_parentNode s
  /\ getParticleCount r
     = Z.to_nat
         (Z.min (Math_floor (fst (container_rect (platform s))
                             * snd (container_rect (platform s)) / 15000))
                (particleCount (CONFIG s)))
  /\ isVisible r = true
  /\ animationFrame r = Some (raf_next (platform s))
  /\ raf_pending (platform r) = [raf_next (platform s)]
  /\ lastFrameTime r = Date_now (platform s).
Proof.
  intros Hi. cbv zeta.
  destruct (stop_when_running s Hi) as (Ha & Hp & Hnow).
  destruct (stop_keeps s) as (Hc & Hcp & Hcont & Hn).
  destruct (init_lifecycle (stop s)) as (Ha' & _ & Hn' & Hp' & _).
  destruct (init_keeps (stop s)) as (Hc' & Hcp' & Hnow' & _).
  pose proof (init_particle_count (stop s)) as Hcount.
  rewrite start_when_stopped by (rewrite Ha', Ha; reflexivity).
  unfold getParticleCount. unfold_setters.
  rewrite Hc', Hc, Hcp', Hcp, Hcount, Hn', Hn, Hp', Hp, Hnow', Hnow, Hc.
  unfold container_rect. rewrite Hcont. repeat split.
Qed.

(** X20: [setConfig(newConfig)] merges the given fields into the
    configuration and restarts the field: in a reachable state it leaves
    the merged configuration, a particle array of the size the density
    formula gives for the merged [particleCount], and the loop running
    with exactly one callback pending. *)
Theorem setConfig_outcome (newConfig : PartialConfig) (s : State) :
  reachable s ->
  let r := setConfig newConfig s in
  let cfg := Object_assign (CONFIG s) newConfig in
  CONFIG r = cfg
  /\ getParticleCount r
     = Z.to_nat
         (Z.min (Math_floor (fst (container_rect (platform s))
                             * snd (container_rect (platform s)) / 15000))
                (particleCount cfg))
  /\ isVisible r = true
  /\ length (raf_pending (platform r)) = 1%nat.
Proof.
  intros Hr. cbv zeta. unfold setConfig, reinit.
  set (s1 := set_CONFIG (Object_assign (CONFIG s) newConfig) s).
  assert (H1 : lifecycle_inv s1).
  { apply (lifecycle_inv_irrelevant s); try reflexivity.
    now apply reachable_inv. }
  destruct (reinit_effect s1 H1) as (Hc & _ & Hn & Hv & _ & Hp & _).
  rewrite Hc, Hn, Hv, Hp. repeat split.
Qed.

Lemma setConfig_outcome_witness :
  let r := setConfig (only_maxConnections 1) small_field in
  let cfg := Object_assign (CONFIG small_field) (only_maxConnections 1) in
  CONFIG r = cfg
  /\ getParticleCount r
     = Z.to_nat
         (Z.min (Math_floor (fst (container_rect (platform small_field))
                             * snd (container_rect (platform small_field))
                             / 15000))
                (particleCount cfg))
  /\ isVisible r = true
  /\ length (raf_pending (platform r)) = 1%nat.
Proof.
  apply (setConfig_outcome (only_maxConnections 1) small_field).
  apply small_field_reachable.
Defined.

(** X18: the listeners outlive [destroy()].  In a reachable state, a resize
    that comes after [destroy()] fills the particle array again, by the
    density formula, and restarts the loop, on a canvas that stays
    detached from the page. *)
Theorem resize_after_destroy (s : State) :
  reachable s ->
  let r := step ResizeTimeout (destroy s) in
  canvas_parentNode r = false
  /\ getParticleCount r
     = Z.to_nat
         (Z.min (Math_floor (fst (container_rect (platform s))
                             * snd (container_rect (platform s)) / 15000))
                (particleCount (CONFIG s)))
  /\ isVisible r = true
  /\ length (raf_pending (platform r)) = 1%nat.
Proof.
  intros Hr. cbv zeta. cbn [step].
  assert (Hd : lifecycle_inv (destroy s)).
  { apply destroy_inv. now apply reachable_inv. }
  destruct (reinit_effect (destroy s) Hd) as (Hc & Hcp & Hn & Hv & _ & Hp & _).
  destruct (destroy_effect s) as (_ & _ & _ & Hcd & Hpf).
  destruct (stop_keeps s) as (Hcs & _ & Hcont & _).
  assert (Hcfg : CONFIG (destroy s) = CONFIG s).
  { unfold destroy. cbv zeta.
    destruct (canvas_parentNode (stop s)); unfold_setters; exact Hcs. }
  rewrite Hcp, Hcd, Hn, Hv, Hp, Hcfg, Hpf.
  unfold container_rect. rewrite Hcont. repeat split.
Qed.

Lemma resize_after_destroy_witness :
  let r := step ResizeTimeout (destroy small_field) in
  canvas_parentNode r = false
  /\ getParticleCount r
     = Z.to_nat
         (Z.min (Math_floor (fst (container_rect (platform small_field))
                             * snd (container_rect (platform small_field))
                             / 15000))
                (particleCount (CONFIG small_field)))
  /\ isVisible r = true
  /\ length (raf_pending (platform r)) = 1%nat.
Proof.
  apply (resize_after_destroy small_field). apply small_field_reachable.
Defined.

Lemma between_mix (a b u : R) : 0 <= u < 1 -> between a b (u * (b - a) + a).
Proof.
  intros Hu. unfold between, Rmin, Rmax.
  destruct (Rle_dec a b); split; nra.
Qed.

Lemma new_particle_conforms (cfg : Config) (rnd : nat -> R) (w h : R) :
  (forall k, 0 <= rnd k < 1) -> conforms cfg (Particle.new cfg rnd w h).
Proof.
  intros Hr. unfold Particle.new, Particle.reset, conforms.
  cbn [Particle.size Particle.opacity Particle.speedX Particle.speedY].
  pose proof (Hr 5%nat) as H5.
  split; [apply between_mix, Hr | ]. split; [lra | ].
  exists (rnd 3%nat * (maxSpeed cfg - minSpeed cfg) + minSpeed cfg).
  split; [apply between_mix, Hr | ].
  set (speed := rnd 3%nat * (maxSpeed cfg - minSpeed cfg) + minSpeed cfg).
  set (angle := rnd 4%nat * PI * 2).
  pose proof (sin2_cos2 angle) as Hsc. unfold Rsqr in Hsc.
  replace (cos angle * speed * (cos angle * speed)
           + sin angle * speed * (sin angle * speed))
    with ((sin angle * sin angle + cos angle * cos angle) * (speed * speed))
    by ring.
  rewrite Hsc. ring.
Qed.

(** X2: what [reset()] gives a new particle, whenever [Math.random()]
    returns values of [0, 1): a position inside the canvas (short of the
    far edges when the canvas has positive sides), a size between the
    configured sizes, an opacity in [0.3, 0.7), a velocity whose magnitude
    lies between the configured speeds, and a counter at 0. *)
Theorem new_particle_ranges (cfg : Config) (rnd : nat -> R) (w h : R) :
  (forall k, 0 <= rnd k < 1) ->
  let p := Particle.new cfg rnd w h in
  conforms cfg p
  /\ Particle.connections p = 0%Z
  /\ Particle.canvasWidth p = w /\ Particle.canvasHeight p = h
  /\ (0 < w -> 0 <= Particle.x p < w)
  /\ (0 < h -> 0 <= Particle.y p < h).
Proof.
  intros Hr. cbv zeta. split; [now apply new_particle_conforms | ].
  unfold Particle.new, Particle.reset.
  cbn [Particle.x Particle.y Particle.connections Particle.canvasWidth
       Particle.canvasHeight].
  pose proof (Hr 0%nat) as H0. pose proof (Hr 1%nat) as H1.
  repeat split; try reflexivity; nra.
Qed.

Lemma new_particle_ranges_witness :
  let p := Particle.new default_CONFIG (fun _ => 0.5) 150 100 in
  conforms default_CONFIG p
  /\ Particle.connections p = 0%Z
  /\ Particle.canvasWidth p = 150 /\ Particle.canvasHeight p = 100
  /\ (0 < 150 -> 0 <= Particle.x p < 150)
  /\ (0 < 100 -> 0 <= Particle.y p < 100).
Proof.
  apply (new_particle_ranges default_CONFIG (fun _ => 0.5) 150 100).
  intros k. lra.
Defined.

Lemma conforms_forget (cfg : Config) (p : Particle.t) :
  conforms cfg (forget_connections p) <-> conforms cfg p.
Proof. unfold conforms. cbn. tauto. Qed.

Lemma conforms_update (cfg : Config) (ms dt : R) (p : Particle.t) :
  conforms cfg p -> conforms cfg (Particle.update ms dt p).
Proof. unfold conforms. cbn. tauto. Qed.

Lemma Forall_conforms_forget (cfg : Config) (ps qs : list Particle.t) :
  map forget_connections ps = map forget_connections qs ->
  Forall (conforms cfg) qs -> Forall (conforms cfg) ps.
Proof.
  intros E H.
  assert (Hq : Forall (conforms cfg) (map forget_connections qs)).
  { apply Forall_map. revert H. apply Forall_impl.
    intros q. apply conforms_forget. }
  rewrite <- E in Hq. rewrite Forall_map in Hq.
  revert Hq. apply Forall_impl. intros p. apply conforms_forget.
Qed.

Lemma init_conf (s : State) : random_ok (platform s) -> conf_inv (init s).
Proof.
  intros Hr. unfold conf_inv, init, resizeCanvas. cbv zeta.
  cbn [fst snd set_particles set_canvas_size CONFIG particles platform].
  set (w := fst (container_rect (platform s))).
  set (h := snd (container_rect (platform s))).
  set (ok := fun st : list Particle.t * (nat -> R) =>
               Forall (conforms (CONFIG s)) (fst st)
               /\ forall k, 0 <= snd st k < 1).
  assert (Hloop : forall n, ok (for_loop 0 n (init_push (CONFIG s) w h)
                                  ([], Math_random (platform s)))).
  { intros n. apply (for_loop_invariant ok).
    - intros i [ps rnd] [Hps Hrnd]. unfold init_push, ok. cbn [fst snd] in *.
      split; [ | intros k; apply Hrnd].
      apply Forall_app. split; [exact Hps | ].
      constructor; [ | constructor].
      now apply new_particle_conforms.
    - split; [constructor | exact Hr]. }
  match goal with
  | |- context [for_loop 0 ?n _ _] => specialize (Hloop n)
  end.
  destruct (for_loop _ _ _ _) as [ps rnd]. destruct Hloop as [Hps Hrnd].
  cbn [fst snd] in *. unfold_setters. split; [exact Hrnd | exact Hps].
Qed.

Lemma stop_platform_random (s : State) :
  Math_random (platform (stop s)) = Math_random (platform s).
Proof.
  unfold stop. destruct (animationFrame s); [ | reflexivity].
  destruct (truthy _); reflexivity.
Qed.

Lemma start_keeps (s : State) :
  CONFIG (start s) = CONFIG s
  /\ Math_random (platform (start s)) = Math_random (platform s).
Proof. unfold start. destruct (truthy _); split; reflexivity. Qed.

Lemma stop_conf (s : State) : conf_inv s -> conf_inv (stop s).
Proof.
  intros [Hr Hc]. unfold conf_inv, random_ok.
  rewrite stop_platform_random, stop_particles.
  destruct (stop_keeps s) as (-> & _). split; assumption.
Qed.

Lemma start_conf (s : State) : conf_inv s -> conf_inv (start s).
Proof.
  intros [Hr Hc]. unfold conf_inv, random_ok.
  destruct (start_keeps s) as (-> & ->). rewrite start_particles.
  split; assumption.
Qed.

Lemma destroy_conf (s : State) : conf_inv s -> conf_inv (destroy s).
Proof.
  intros H. apply stop_conf in H. destruct H as [Hr _].
  unfold conf_inv, destroy. cbv zeta.
  destruct (canvas_parentNode (stop s)); unfold_setters;
    (split; [exact Hr | constructor]).
Qed.

Lemma animate_conf (t : R) (s : State) : conf_inv s -> conf_inv (animate t s).
Proof.
  intros [Hr Hc]. destruct (isVisible s) eqn:Hv.
  - split.
    + unfold animate. rewrite Hv. exact Hr.
    + assert (Hcfg : CONFIG (animate t s) = CONFIG s)
        by (unfold animate; rewrite Hv; reflexivity).
      rewrite Hcfg.
      apply (Forall_conforms_forget _ _
               (map (Particle.update (motionScale s)
                       (deltaTime_of t (lastFrameTime s))) (particles s))).
      * rewrite (animate_bodies t s Hv), map_map.
        apply map_ext. reflexivity.
      * apply Forall_map. revert Hc. apply Forall_impl.
        intros p. apply conforms_update.
  - unfold animate. rewrite Hv. split; assumption.
Qed.

Lemma reinit_conf (s : State) :
  random_ok (platform s) -> conf_inv (start (init (stop s))).
Proof.
  intros Hr. apply start_conf, init_conf.
  unfold random_ok. now rewrite stop_platform_random.
Qed.

Lemma step_conf (e : Event) (s : State) : conf_inv s -> conf_inv (step e s).
Proof.
  intros H. pose proof H as [Hr Hc]. destruct e; cbn [step].
  - unfold deliver_frame. destruct (raf_pending (platform s)); [exact H | ].
    apply animate_conf. split; assumption.
  - now apply reinit_conf.
  - unfold on_visibilitychange. cbv zeta.
    destruct (document_hidden _); [apply stop_conf | apply start_conf];
      split; assumption.
  - unfold motion_poll. destruct (checkMotion s); [ | exact H].
    destruct (Req_dec_T _ _); [ | exact H].
    destruct (isVisible s); [ | exact H].
    apply (destroy_conf s) in H. exact H.
  - now apply destroy_conf.
  - now apply start_conf.
  - now apply stop_conf.
  - now apply destroy_conf.
  - now apply reinit_conf.
  - unfold setConfig, reinit. now apply reinit_conf.
  - exact H.
  - exact H.
  - destruct (motionUtils (platform s)); exact H.
Qed.

(** X4: in every state the script reaches on a page whose [Math.random()]
    returns values of [0, 1), every particle agrees with the configuration
    in force, also after [setConfig]: its size lies between the configured
    sizes, its opacity in [0.3, 0.7), and the magnitude of its velocity
    between the configured speeds. *)
Theorem reachable_conforms (pf : Platform) (s0 : State) (evs : list Event) :
  random_ok pf -> load pf = Some s0 ->
  Forall (conforms (CONFIG (run evs s0))) (particles (run evs s0)).
Proof.
  intros Hpf Hl.
  assert (H0 : conf_inv s0).
  { revert Hl. unfold load. destruct (container pf); [ | discriminate].
    cbv zeta. destruct (Req_dec_T _ _); [discriminate | ]. intros [= <-].
    apply start_conf, init_conf. exact Hpf. }
  clear Hl. revert s0 H0. unfold run.
  induction evs as [|e evs IH]; intros s0 H0; cbn [fold_left].
  - apply H0.
  - apply IH. now apply step_conf.
Qed.

Lemma reachable_conforms_witness :
  Forall (conforms (CONFIG (run [ApiSetConfig (only_maxConnections 1); Frame 20]
                              small_field)))
         (particles (run [ApiSetConfig (only_maxConnections 1); Frame 20]
                       small_field)).
Proof.
  apply (reachable_conforms (page 150 100 0.5) small_field
           [ApiSetConfig (only_maxConnections 1); Frame 20]).
  - intros k. simpl. lra.
  - apply load_small_page.
Defined.

(** X5: [getDistance] is a distance: never negative, the same in both
    directions, and 0 exactly between a point and itself. *)
Theorem getDistance_metric (x1 y1 x2 y2 : R) :
  0 <= getDistance x1 y1 x2 y2
  /\ getDistance x1 y1 x2 y2 = getDistance x2 y2 x1 y1
  /\ (getDistance x1 y1 x2 y2 = 0 <-> x1 = x2 /\ y1 = y2).
Proof.
  split; [apply getDistance_nonneg | ]. split.
  - unfold getDistance. cbv zeta. f_equal. ring.
  - unfold getDistance. cbv zeta. split.
    + intros H. apply sqrt_eq_0 in H.
      * assert (Hx : 0 <= (x2 - x1) * (x2 - x1)) by apply Rle_0_sqr.
        assert (Hy : 0 <= (y2 - y1) * (y2 - y1)) by apply Rle_0_sqr.
        assert (Hx0 : (x2 - x1) * (x2 - x1) = 0) by lra.
        assert (Hy0 : (y2 - y1) * (y2 - y1) = 0) by lra.
        apply Rmult_integral in Hx0. apply Rmult_integral in Hy0.
        split; [destruct Hx0; lra | destruct Hy0; lra].
      * apply Rplus_le_le_0_compat; apply Rle_0_sqr.
    + intros [-> ->].
      replace ((x2 - x2) * (x2 - x2) + (y2 - y2) * (y2 - y2)) with 0 by ring.
      apply sqrt_0.
Qed.

Lemma deltaTime_forward (t t0 : R) :
  t0 <= t ->
  0 <= deltaTime_of t t0 <= 2
  /\ (t - t0 <= 33.34 -> deltaTime_of t t0 = (t - t0) / 16.67)
  /\ (33.34 <= t - t0 -> deltaTime_of t t0 = 2).
Proof.
  intros H. unfold deltaTime_of, Math_min.
  assert (Hinv : 0 < / 16.67) by (apply Rinv_0_lt_compat; lra).
  assert (Hq : 0 <= (t - t0) / 16.67) by (unfold Rdiv; nra).
  split; [ | split].
  - split; [apply Rmin_glb; lra | apply Rmin_r].
  - intros Hs. apply Rmin_left. unfold Rdiv.
    apply (Rmult_le_reg_r 16.67); [lra | ].
    rewrite Rmult_assoc, Rinv_l by lra. lra.
  - intros Hs. apply Rmin_right. unfold Rdiv.
    apply (Rmult_le_reg_r 16.67); [lra | ].
    rewrite Rmult_assoc, Rinv_l by lra. lra.
Qed.

(** X13: a frame whose timestamp is not before [lastFrameTime] advances the
    particles by a step of 0 to 2 frame units: the elapsed time over
    16.67 ms up to 33.34 ms, and 2 beyond.  So, wrap-around aside, no
    coordinate moves by more than twice the particle's speed along it
    times the motion scale. *)
Theorem forward_frame_step (s : State) (t : R) (i : nat) (p : Particle.t) :
  isVisible s = true ->
  lastFrameTime s <= t ->
  nth_error (particles s) i = Some p ->
  let deltaTime := deltaTime_of t (lastFrameTime s) in
  0 <= deltaTime <= 2
  /\ (t - lastFrameTime s <= 33.34 ->
      deltaTime = (t - lastFrameTime s) / 16.67)
  /\ (33.34 <= t - lastFrameTime s -> deltaTime = 2)
  /\ exists p',
       nth_error (particles (animate t s)) i = Some p'
       /\ (0 <= Particle.x p + Particle.speedX p * motionScale s * deltaTime
             <= Particle.canvasWidth p ->
           Rabs (Particle.x p' - Particle.x p)
           <= 2 * Rabs (Particle.speedX p * motionScale s))
       /\ (0 <= Particle.y p + Particle.speedY p * motionScale s * deltaTime
             <= Particle.canvasHeight p ->
           Rabs (Particle.y p' - Particle.y p)
           <= 2 * Rabs (Particle.speedY p * motionScale s)).
Proof.
  intros Hv Ht Hp. cbv zeta.
  destruct (deltaTime_forward t (lastFrameTime s) Ht) as (Hd & Hs & Hc).
  split; [exact Hd | ]. split; [exact Hs | ]. split; [exact Hc | ].
  destruct (animate_particle t s i p Hv Hp) as (p' & Hp' & Hf).
  set (dt := deltaTime_of t (lastFrameTime s)) in *.
  assert (Hx : Particle.x p' = Particle.x (Particle.update (motionScale s) dt p))
    by (rewrite <- Hf; reflexivity).
  assert (Hy : Particle.y p' = Particle.y (Particle.update (motionScale s) dt p))
    by (rewrite <- Hf; reflexivity).
  assert (Hbound : forall v, Rabs (v * dt) <= 2 * Rabs v).
  { intros v. rewrite Rabs_mult, (Rabs_right dt) by lra.
    pose proof (Rabs_pos v). nra. }
  exists p'. split; [exact Hp' | ]. split; intros Hb.
  - rewrite Hx, update_no_wrap by exact Hb.
    replace (Particle.x p + Particle.speedX p * motionScale s * dt - Particle.x p)
      with (Particle.speedX p * motionScale s * dt) by ring.
    apply Hbound.
  - rewrite Hy, update_no_wrap_y by exact Hb.
    replace (Particle.y p + Particle.speedY p * motionScale s * dt - Particle.y p)
      with (Particle.speedY p * motionScale s * dt) by ring.
    apply Hbound.
Qed.

(** One frame on two particles 50 apart. *)
Lemma two_dots_frame :
  particles (animate 16.67 (running default_CONFIG [dot 0 0 0; dot 50 0 0]))
  = [dot (0 + 0.3) 0 1; dot (50 + 0.3) 0 1].
Proof.
  rewrite animate_visible by reflexivity.
  cbn [running CONFIG motionScale particles lastFrameTime ctx_log
       canvas_width canvas_height].
  replace 16.67 with (0 + 16.67) by lra. rewrite deltaTime_one_frame.
  cbn [map]. rewrite !update_dot by lra.
  run_pass. reflexivity.
Qed.

Lemma forward_frame_step_witness :
  let s := running default_CONFIG [dot 0 0 0; dot 50 0 0] in
  0 <= deltaTime_of 16.67 (lastFrameTime s) <= 2.
Proof.
  cbv zeta.
  apply (forward_frame_step (running default_CONFIG [dot 0 0 0; dot 50 0 0])
           16.67 0%nat (dot 0 0 0)).
  - reflexivity.
  - simpl. lra.
  - reflexivity.
Defined.

Lemma frame_degree_bound_witness :
  (0 <= Particle.connections (dot (0 + 0.3) 0 1)
   <= degree_bound default_CONFIG 2 0)%Z.
Proof.
  apply (frame_degree_bound 16.67
           (running default_CONFIG [dot 0 0 0; dot 50 0 0]) 0%nat
           (dot (0 + 0.3) 0 1)).
  - reflexivity.
  - simpl. lia.
  - rewrite two_dots_frame. reflexivity.
Defined.

Lemma frame_handshake_witness :
  let s := running default_CONFIG [dot 0 0 0; dot 50 0 0] in
  total_connections (particles (animate 16.67 s))
  = (2 * (Z.of_nat (count_lines (ctx_log (animate 16.67 s)))
          - Z.of_nat (count_lines (ctx_log s))))%Z.
Proof.
  apply (frame_handshake 16.67
           (running default_CONFIG [dot 0 0 0; dot 50 0 0])).
  reflexivity.
Defined.

Lemma frame_drawing_order_witness :
  let s := running default_CONFIG [dot 0 0 0; dot 50 0 0] in
  let ps := map (Particle.update (motionScale s)
                   (deltaTime_of 16.67 (lastFrameTime s))) (particles s) in
  exists lines,
    ctx_log (animate 16.67 s)
    = ctx_log s
      ++ ClearRect 0 0 (canvas_width s) (canvas_height s)
         :: map (Particle.draw (CONFIG s)) ps ++ lines
    /\ Forall (edge_of (CONFIG s) ps) lines
    /\ getParticleCount (animate 16.67 s) = getParticleCount s
    /\ lastFrameTime (animate 16.67 s) = 16.67.
Proof.
  apply (frame_drawing_order 16.67
           (running default_CONFIG [dot 0 0 0; dot 50 0 0])).
  reflexivity.
Defined.

Lemma motion_poll_outcome_witness :
  let s := run [MotionScaleChanged 0] small_field in
  let d := step MotionPoll s in
  getParticleCount d = 0%nat
  /\ canvas_parentNode d = false
  /\ raf_pending (platform d) = []
  /\ checkMotion d = false
  /\ step MotionPoll d = d.
Proof.
  cbv zeta.
  destruct (motion_poll_outcome (run [MotionScaleChanged 0] small_field))
    as [H _].
  - apply reachable_run, small_field_reachable.
  - reflexivity.
  - apply H; reflexivity.
Defined.

Lemma load_outcome_witness :
  load (set_container None (page 150 100 0.5)) = None
  /\ load (set_motionUtils (Some 0) (page 150 100 0.5)) = None.
Proof.
  split.
  - apply (load_outcome (set_container None (page 150 100 0.5))).
    left. reflexivity.
  - apply (load_outcome (set_motionUtils (Some 0) (page 150 100 0.5))).
    right. reflexivity.
Defined.

Lemma first_particle_connects_all_witness :
  exists p0',
    hd_error
      (fst (drawConnections_pass default_CONFIG
              (dot 0 0 0 :: [dot 10 0 0; dot 20 0 0], []))) = Some p0'
    /\ forget_connections p0' = forget_connections (dot 0 0 0)
    /\ Particle.connections p0'
       = Z.of_nat
           (length (filter (within_reach default_CONFIG (dot 0 0 0))
                      [dot 10 0 0; dot 20 0 0])).
Proof.
  apply (first_particle_connects_all default_CONFIG (dot 0 0 0)
           [dot 10 0 0; dot 20 0 0] []).
  - simpl. lia.
  - reflexivity.
  - repeat constructor.
Defined.

Lemma reachable_in_canvas_witness :
  Forall in_canvas (particles (run [Frame 20; ContainerResized 300 200;
                                    ResizeTimeout] small_field)).
Proof.
  apply (reachable_in_canvas (page 150 100 0.5) small_field
           [Frame 20; ContainerResized 300 200; ResizeTimeout]).
  - unfold page_ok, container_rect. simpl. repeat split; lra.
  - apply load_small_page.
  - repeat constructor; simpl; lra.
Defined.

Lemma setMotionScale_in_sync (b : bool) (st : Motion.t) :
  Motion.motionEnabled st = b -> Motion.in_sync (Motion.setMotionScale b st).
Proof.
  intros <-. unfold Motion.in_sync, Motion.setMotionScale.
  cbn [Motion.motion_scale Motion.motion_reduced Motion.motionEnabled
       Motion.motionToggleBtn].
  repeat split. destruct (Motion.motionToggleBtn st); [ | exact I].
  cbn [Motion.aria_pressed Motion.title]. split; reflexivity.
Qed.

Lemma in_sync_liveRegion (v : option string) (st : Motion.t) :
  Motion.in_sync st -> Motion.in_sync (Motion.set_liveRegion v st).
Proof. intros H. exact H. Qed.

Lemma load_in_sync (pg : Motion.Page) : Motion.in_sync (Motion.load pg).
Proof. unfold Motion.load. cbv zeta. now apply setMotionScale_in_sync. Qed.

Lemma step_in_sync (e : Motion.Event) (st : Motion.t) :
  Motion.in_sync st -> Motion.in_sync (Motion.step e st).
Proof.
  intros H. destruct e; cbn [Motion.step].
  - unfold Motion.click. destruct (Motion.motionToggleBtn st) eqn:B; [ | exact H].
    cbv zeta. unfold Motion.announceToScreenReader.
    match goal with
    | |- Motion.in_sync (match Motion.liveRegion ?s with _ => _ end) =>
        assert (Hs : Motion.in_sync s) by (now apply setMotionScale_in_sync);
        destruct (Motion.liveRegion s); exact Hs
    end.
  - unfold Motion.media_change. cbv zeta.
    cbn [Motion.localStorage Motion.set_system_reduced].
    destruct (Motion.localStorage st); [exact H | ].
    now apply setMotionScale_in_sync.
  - unfold Motion.setMotionEnabled. now apply setMotionScale_in_sync.
  - unfold Motion.announce_timeout. destruct (Motion.liveRegion st); exact H.
Qed.

Lemma run_in_sync (evs : list Motion.Event) (st : Motion.t) :
  Motion.in_sync st -> Motion.in_sync (Motion.run evs st).
Proof.
  unfold Motion.run. revert st.
  induction evs as [|e evs IH]; intros st H; [exact H | ].
  cbn [fold_left]. apply IH. now apply step_in_sync.
Qed.

Lemma getMotionScale_in_sync (parseFloat : string -> option R) (st : Motion.t) :
  parseFloat "1"%string = Some 1 -> parseFloat "0"%string = Some 0 ->
  Motion.in_sync st ->
  Motion.getMotionScale parseFloat st
  = if Motion.isMotionEnabled st then 1 else 0.
Proof.
  intros H1 H0 (Hs & _). unfold Motion.getMotionScale, Motion.isMotionEnabled.
  cbv zeta. rewrite Hs. destruct (Motion.motionEnabled st).
  - change (Motion.trim "1") with "1"%string. rewrite H1.
    destruct (Req_dec_T 1 0); [lra | reflexivity].
  - change (Motion.trim "0") with "0"%string. rewrite H0.
    destruct (Req_dec_T 0 0); reflexivity.
Qed.

(** X21: whatever the page and whatever clicks, media-query changes and
    API calls follow, the mirrors of the motion flag agree with it:
    [getMotionScale()] is 1 when motion is enabled and 0 when it is not,
    the body carries [motion-reduced] exactly when it is not, and the
    toggle button's [aria-pressed] and title say the same. *)
Theorem motion_mirrors_agree (parseFloat : string -> option R)
  (pg : Motion.Page) (evs : list Motion.Event) :
  parseFloat "1"%string = Some 1 -> parseFloat "0"%string = Some 0 ->
  let st := Motion.run evs (Motion.load pg) in
  Motion.getMotionScale parseFloat st
  = (if Motion.isMotionEnabled st then 1 else 0)
  /\ Motion.in_sync st.
Proof.
  intros H1 H0 st.
  assert (Hs : Motion.in_sync st) by apply run_in_sync, load_in_sync.
  split; [now apply getMotionScale_in_sync | exact Hs].
Qed.

Lemma motion_mirrors_agree_witness :
  let pg := {| Motion.prefers_reduced := true; Motion.stored := None;
               Motion.toggle_button :=
                 Some {| Motion.aria_pressed := ""; Motion.title := "" |};
               Motion.form_status := Some ""%string |} in
  let st := Motion.run [Motion.Click; Motion.MediaChange false]
              (Motion.load pg) in
  Motion.getMotionScale Motion.parseFloat_01 st
  = (if Motion.isMotionEnabled st then 1 else 0)
  /\ Motion.in_sync st.
Proof.
  apply (motion_mirrors_agree Motion.parseFloat_01); reflexivity.
Defined.

(** X22: the choice survives a reload.  After [setMotionEnabled(b)] a
    reload finds motion enabled exactly when [b], and after a click on the
    toggle button exactly when it was not before, whatever the system
    preference is by then.  With nothing stored, a reload follows the
    system preference; a stored item other than ["true"] means
    disabled. *)
Theorem preference_survives_reload (st : Motion.t) (system : bool) :
  (forall b,
     Motion.isMotionEnabled
       (Motion.load (Motion.reload_page system (Motion.setMotionEnabled b st)))
     = b)
  /\ (Motion.motionToggleBtn st <> None ->
      Motion.isMotionEnabled
        (Motion.load (Motion.reload_page system (Motion.click st)))
      = negb (Motion.isMotionEnabled st))
  /\ (Motion.localStorage st = None ->
      Motion.isMotionEnabled (Motion.load (Motion.reload_page system st))
      = negb system)
  /\ (forall v, Motion.localStorage st = Some v -> v <> "true"%string ->
      Motion.isMotionEnabled (Motion.load (Motion.reload_page system st))
      = false).
Proof.
  unfold Motion.isMotionEnabled. repeat split.
  - intros b. destruct b; reflexivity.
  - intros Hb. unfold Motion.click.
    destruct (Motion.motionToggleBtn st); [ | contradiction].
    cbv zeta. unfold Motion.announceToScreenReader.
    cbn [Motion.liveRegion Motion.setMotionScale Motion.set_localStorage
         Motion.set_motionEnabled].
    destruct (Motion.liveRegion st); destruct (Motion.motionEnabled st);
      reflexivity.
  - intros Hs. unfold Motion.load, Motion.reload_page. cbn. now rewrite Hs.
  - intros v Hs Hv. unfold Motion.load, Motion.reload_page. cbn. rewrite Hs.
    destruct (String.eqb_spec v "true"); [contradiction | reflexivity].
Qed.

Lemma localStorage_stays (e : Motion.Event) (st : Motion.t) :
  Motion.localStorage st <> None ->
  Motion.localStorage (Motion.step e st) <> None.
Proof.
  intros H. destruct e; cbn [Motion.step].
  - unfold Motion.click. destruct (Motion.motionToggleBtn st); [ | exact H].
    cbv zeta. unfold Motion.announceToScreenReader.
    cbn [Motion.liveRegion Motion.setMotionScale Motion.set_localStorage
         Motion.set_motionEnabled].
    destruct (Motion.liveRegion st); discriminate.
  - unfold Motion.media_change. cbv zeta.
    destruct st as [en sys ls sc btn red live]. cbn in *.
    destruct ls; [cbn; discriminate | contradiction].
  - cbn. discriminate.
  - unfold Motion.announce_timeout. destruct (Motion.liveRegion st); exact H.
Qed.

(** X23: the system preference yields to the user's choice.  As long as
    nothing is stored, a change of the media query sets the flag to its
    opposite; once the user has chosen (a click on the button or
    [setMotionEnabled]), no later change of the media query touches the
    flag, whatever happens in between. *)
Theorem system_preference_yields (st : Motion.t) (m : bool) :
  (Motion.localStorage st = None ->
   Motion.isMotionEnabled (Motion.media_change m st) = negb m)
  /\ (forall (chosen : Motion.Event) (evs : list Motion.Event),
        chosen = Motion.Click /\ Motion.motionToggleBtn st <> None
        \/ (exists b, chosen = Motion.SetMotionEnabled b) ->
        let st' := Motion.run evs (Motion.step chosen st) in
        Motion.isMotionEnabled (Motion.media_change m st')
        = Motion.isMotionEnabled st').
Proof.
  split.
  - intros Hs. unfold Motion.media_change. cbv zeta.
    cbn [Motion.localStorage Motion.set_system_reduced]. now rewrite Hs.
  - intros chosen evs Hc. cbv zeta.
    assert (H1 : Motion.localStorage (Motion.step chosen st) <> None).
    { destruct Hc as [[-> Hb] | [b ->]]; cbn [Motion.step].
      - unfold Motion.click.
        destruct (Motion.motionToggleBtn st); [ | contradiction].
        cbv zeta. unfold Motion.announceToScreenReader.
        cbn [Motion.liveRegion Motion.setMotionScale Motion.set_localStorage
             Motion.set_motionEnabled].
        destruct (Motion.liveRegion st); discriminate.
      - discriminate. }
    assert (H2 : Motion.localStorage
                   (Motion.run evs (Motion.step chosen st)) <> None).
    { revert H1. generalize (Motion.step chosen st). unfold Motion.run.
      induction evs as [|e evs IH]; intros s Hs; [exact Hs | ].
      cbn [fold_left]. apply IH. now apply localStorage_stays. }
    unfold Motion.media_change, Motion.isMotionEnabled. cbv zeta.
    cbn [Motion.localStorage Motion.set_system_reduced].
    destruct (Motion.localStorage (Motion.run evs (Motion.step chosen st)));
      [reflexivity | contradiction].
Qed.

Lemma button_stays (e : Motion.Event) (st : Motion.t) :
  Motion.motionToggleBtn st <> None ->
  Motion.motionToggleBtn (Motion.step e st) <> None.
Proof.
  intros H. destruct st as [en sys ls sc btn red live]. cbn in H.
  destruct btn as [b|]; [ | contradiction].
  destruct e; cbn; unfold Motion.click, Motion.media_change,
    Motion.announce_timeout, Motion.announceToScreenReader; cbn;
    try destruct ls; try destruct live; cbn; discriminate.
Qed.

Lemma run_button_stays (evs : list Motion.Event) (st : Motion.t) :
  Motion.motionToggleBtn st <> None ->
  Motion.motionToggleBtn (Motion.run evs st) <> None.
Proof.
  unfold Motion.run. revert st.
  induction evs as [|e evs IH]; intros st H; [exact H | ].
  cbn [fold_left]. apply IH. now apply button_stays.
Qed.

(** X24: two clicks on the toggle button bring the flag and all its mirrors
    back, and leave the flag stored. *)
Theorem double_click_restores (pg : Motion.Page) (evs : list Motion.Event) :
  Motion.toggle_button pg <> None ->
  let st := Motion.run evs (Motion.load pg) in
  let st' := Motion.run [Motion.Click; Motion.Click] st in
  Motion.isMotionEnabled st' = Motion.isMotionEnabled st
  /\ Motion.motion_scale st' = Motion.motion_scale st
  /\ Motion.motion_reduced st' = Motion.motion_reduced st
  /\ Motion.motionToggleBtn st' = Motion.motionToggleBtn st
  /\ Motion.localStorage st'
     = Some (Motion.String_of_bool (Motion.isMotionEnabled st)).
Proof.
  intros Hb. cbv zeta.
  set (st := Motion.run evs (Motion.load pg)).
  assert (Hs : Motion.in_sync st) by apply run_in_sync, load_in_sync.
  assert (Hbtn : Motion.motionToggleBtn st <> None).
  { subst st. apply run_button_stays. unfold Motion.load. cbn.
    destruct (Motion.toggle_button pg); [discriminate | contradiction]. }
  destruct Hs as (Hscale & Hred & Hbt).
  unfold Motion.run, Motion.isMotionEnabled. cbn [fold_left Motion.step].
  destruct st as [en sys ls sc btn red live]. cbn in *.
  destruct btn as [b|]; [ | contradiction]. destruct Hbt as [Hap Hti].
  destruct b as [ap ti]. cbn in *. subst.
  unfold Motion.click. cbn. destruct live; cbn; destruct en; cbn;
    repeat split; reflexivity.
Qed.

Lemma double_click_restores_witness :
  let pg := {| Motion.prefers_reduced := false; Motion.stored := None;
               Motion.toggle_button :=
                 Some {| Motion.aria_pressed := ""; Motion.title := "" |};
               Motion.form_status := None |} in
  let st := Motion.run [Motion.MediaChange true] (Motion.load pg) in
  let st' := Motion.run [Motion.Click; Motion.Click] st in
  Motion.isMotionEnabled st' = Motion.isMotionEnabled st
  /\ Motion.motion_scale st' = Motion.motion_scale st
  /\ Motion.motion_reduced st' = Motion.motion_reduced st
  /\ Motion.motionToggleBtn st' = Motion.motionToggleBtn st
  /\ Motion.localStorage st'
     = Some (Motion.String_of_bool (Motion.isMotionEnabled st)).
Proof.
  apply (double_click_restores
           {| Motion.prefers_reduced := false; Motion.stored := None;
              Motion.toggle_button :=
                Some {| Motion.aria_pressed := ""; Motion.title := "" |};
              Motion.form_status := None |} [Motion.MediaChange true]).
  discriminate.
Defined.

(** X25: the particle script on a page where [motion.js] has run.  With
    motion disabled the script returns at once; with motion enabled, and a
    container, it runs with a motion scale of exactly 1 and keeps it,
    whatever happens afterwards.  And a poll of a visible field finds
    scale 0, and destroys the field, exactly when motion is disabled. *)
Theorem particles_follow_motion_flag (parseFloat : string -> option R)
  (pg : Motion.Page) (mevs : list Motion.Event) (pf : Platform) :
  parseFloat "1"%string = Some 1 -> parseFloat "0"%string = Some 0 ->
  let m := Motion.run mevs (Motion.load pg) in
  (Motion.isMotionEnabled m = false ->
   load (with_motion parseFloat m pf) = None)
  /\ (Motion.isMotionEnabled m = true ->
      forall s evs,
        load (with_motion parseFloat m pf) = Some s ->
        motionScale (run evs s) = 1)
  /\ (forall s,
        checkMotion s = true -> isVisible s = true ->
        let s' := set_platform (with_motion parseFloat m (platform s)) s in
        (Motion.isMotionEnabled m = false ->
         getParticleCount (step MotionPoll s') = 0%nat
         /\ canvas_parentNode (step MotionPoll s') = false)
        /\ (Motion.isMotionEnabled m = true -> step MotionPoll s' = s')).
Proof.
  intros H1 H0 m.
  assert (Hscale : Motion.getMotionScale parseFloat m
                   = if Motion.isMotionEnabled m then 1 else 0).
  { apply getMotionScale_in_sync; try assumption.
    apply run_in_sync, load_in_sync. }
  assert (Hget : forall pf', getMotionScale_or_1 (with_motion parseFloat m pf')
                             = if Motion.isMotionEnabled m then 1 else 0).
  { intros pf'. unfold getMotionScale_or_1, with_motion. cbn. exact Hscale. }
  split; [ | split].
  - intros Hoff. unfold load. destruct (container _); [ | reflexivity].
    cbv zeta. rewrite Hget, Hoff.
    destruct (Req_dec_T 0 0); [reflexivity | contradiction].
  - intros Hon s evs Hl. rewrite run_motionScale.
    destruct (load_motionScale _ _ Hl) as [-> _]. now rewrite Hget, Hon.
  - intros s Hc Hv. cbv zeta. split.
    + intros Hoff. cbn [step]. unfold motion_poll. unfold_setters.
      rewrite Hc, Hv, Hget, Hoff.
      destruct (Req_dec_T 0 0); [ | contradiction].
      unfold getParticleCount. unfold_setters.
      match goal with
      | |- context [destroy ?x] =>
          destruct (destroy_effect x) as (-> & _ & _ & -> & _)
      end.
      split; reflexivity.
    + intros Hon. cbn [step]. unfold motion_poll. unfold_setters.
      rewrite Hc, Hget, Hon.
      destruct (Req_dec_T 1 0); [lra | reflexivity].
Qed.

Lemma particles_follow_motion_flag_witness :
  let pg := {| Motion.prefers_reduced := true; Motion.stored := None;
               Motion.toggle_button := None; Motion.form_status := None |} in
  load (with_motion Motion.parseFloat_01 (Motion.run [] (Motion.load pg))
          (page 150 100 0.5)) = None.
Proof.
  cbv zeta.
  apply (particles_follow_motion_flag Motion.parseFloat_01
           {| Motion.prefers_reduced := true; Motion.stored := None;
              Motion.toggle_button := None; Motion.form_status := None |}
           [] (page 150 100 0.5)); reflexivity.
Defined.

Lemma preference_survives_reload_witness :
  let st := Motion.load
              {| Motion.prefers_reduced := false;
                 Motion.stored := Some "yes"%string;
                 Motion.toggle_button := None;
                 Motion.form_status := None |} in
  Motion.isMotionEnabled (Motion.load (Motion.reload_page false st)) = false.
Proof.
  cbv zeta.
  destruct (preference_survives_reload
              (Motion.load
                 {| Motion.prefers_reduced := false;
                    Motion.stored := Some "yes"%string;
                    Motion.toggle_button := None;
                    Motion.form_status := None |}) false)
    as (_ & _ & _ & H).
  apply (H "yes"%string).
  - reflexivity.
  - discriminate.
Defined.

Lemma system_preference_yields_witness :
  let st := Motion.load
              {| Motion.prefers_reduced := false; Motion.stored := None;
                 Motion.toggle_button := None; Motion.form_status := None |} in
  Motion.isMotionEnabled (Motion.media_change true st) = false.
Proof.
  cbv zeta.
  destruct (system_preference_yields
              (Motion.load
                 {| Motion.prefers_reduced := false; Motion.stored := None;
                    Motion.toggle_button := None;
                    Motion.form_status := None |}) true)
    as (H & _).
  apply H. reflexivity.
Defined.
